(** * REDasm listing renderer: layout of listing rows into styled fragments

    Shallow embedding of
    [src/redasm/disassembler/listing/listingrenderer.cpp]
    and the properties of its layout that the specification states.

    Conventions of the embedding.
    - [size_t] values are integers of [Z] in the range [0, 2^64); the one
      addition the renderer makes on them that can leave the range
      ([start + count]) is reduced modulo [2^64], and so are the two loop
      counters.
    - The cursor [RendererFormat] is passed by pointer and overwritten in
      place in the C++; here every routine takes the renderer and the cursor
      and returns both.
    - [renderText] and [fontUnit] are pure virtual: the drawing backend.
      [renderText] is embedded as appending a snapshot of the cursor to the
      list [painted]; a call of [fontUnit] is counted in [fontUnit_calls] and
      answers with the metrics of the environment.
    - Font metrics and cursor coordinates are integers ([Z]); the C++
      carries them in floating point.  Positions are therefore stated
      through the sums and products the code itself performs, one fragment
      after the other, and never through a total worked out another way.
    - The document, the printer and the format plugin are collaborators
      whose code is outside this file: they are the fields of [Env]. *)

From Stdlib Require Import ZArith List String Ascii Bool Lia.
From Stdlib Require Import DecimalString HexadecimalString.
Import ListNotations.

#[local] Open Scope string_scope.
#[local] Open Scope Z_scope.

(** ** Data *)

(** [#define INDENT_WIDTH 2] *)
Definition INDENT_WIDTH : Z := 2.

(** Width of [size_t] on the LP64 targets REDasm builds for. *)
Definition SIZE_BITS : Z := 64.
Definition SIZE_MOD : Z := 2 ^ SIZE_BITS.

(** Unsigned wrap-around of [size_t] arithmetic. *)
Definition size_t_wrap (n : Z) : Z := n mod SIZE_MOD.

(** One line of the listing: its numeric kind and its address. *)
Record ListingItem := {
  type : Z;
  address : Z
}.

(** [item->is(kind)]. *)
Definition ListingItem_is (item : ListingItem) (kind : Z) : bool :=
  type item =? kind.

(** Only the name of a segment is read by the renderer. *)
Record Segment := {
  name : string
}.

(** A symbol is handed to the printer untouched. *)
Record Symbol := {
  symbol_name : string
}.

(** The instruction types the renderer asks about. *)
Inductive InstructionTypes := Stop | Nop | Call | Jump | Conditional.

(** An instruction as the renderer observes it: its mnemonic, its comments,
    and the answers of [isInvalid()] and [is(type)]. *)
Record Instruction := {
  mnemonic : string;
  comments : list string;
  isInvalid : bool;
  Instruction_is : InstructionTypes -> bool
}.

(** The operand types the renderer asks about. *)
Inductive OperandTypes := Memory | Displacement | Register.

(** An operand as the renderer observes it. *)
Record Operand := {
  index : Z;
  isNumeric : bool;
  Operand_is : OperandTypes -> bool
}.

(** The cursor, [struct RendererFormat]. *)
Record RendererFormat := {
  x : Z;
  y : Z;
  fontwidth : Z;
  fontheight : Z;
  style : string;
  text : string;
  userdata : Z
}.

Definition set_x (rf : RendererFormat) (v : Z) : RendererFormat :=
  {| x := v; y := y rf; fontwidth := fontwidth rf; fontheight := fontheight rf;
     style := style rf; text := text rf; userdata := userdata rf |}.

Definition set_y (rf : RendererFormat) (v : Z) : RendererFormat :=
  {| x := x rf; y := v; fontwidth := fontwidth rf; fontheight := fontheight rf;
     style := style rf; text := text rf; userdata := userdata rf |}.

Definition set_style (rf : RendererFormat) (v : string) : RendererFormat :=
  {| x := x rf; y := y rf; fontwidth := fontwidth rf; fontheight := fontheight rf;
     style := v; text := text rf; userdata := userdata rf |}.

Definition set_text (rf : RendererFormat) (v : string) : RendererFormat :=
  {| x := x rf; y := y rf; fontwidth := fontwidth rf; fontheight := fontheight rf;
     style := style rf; text := v; userdata := userdata rf |}.

(** The renderer: the persisted comment column, and what the backend has
    been asked so far (fragments painted, font-metric queries). *)
Record ListingRenderer := {
  m_commentcolumn : Z;
  painted : list RendererFormat;
  fontUnit_calls : nat
}.

(** The collaborators of the renderer. *)
Record Env := {
  (* m_document *)
  doc_size : Z;
  doc_itemAt : Z -> ListingItem;
  doc_segment : Z -> option Segment;
  doc_symbol : Z -> Symbol;
  doc_instruction : Z -> Instruction;
  (* ListingItem::SegmentItem, FunctionItem, InstructionItem *)
  SegmentItem : Z;
  FunctionItem : Z;
  InstructionItem : Z;
  (* m_printer: every call of the callback, in order *)
  printer_segment : option Segment -> list string;
  printer_function : Symbol -> list (string * string * string);
  printer_out : Instruction -> list (Operand * string * string);
  (* m_disassembler->format()->bits() and REDasm::hex *)
  format_bits : Z;
  hex : Z -> Z -> bool -> string;
  (* what the backend answers to fontUnit: width and height *)
  font_metrics : Z * Z
}.

(** ** The backend calls *)

(** [renderText(rf)]: the backend receives the cursor as it is now. *)
Definition renderText (this : ListingRenderer) (rf : RendererFormat)
  : ListingRenderer :=
  {| m_commentcolumn := m_commentcolumn this;
     painted := (painted this ++ [rf])%list;
     fontUnit_calls := fontUnit_calls this |}.

(** [fontUnit(&w, &h)]: one query of the backend. *)
Definition fontUnit (env : Env) (this : ListingRenderer)
  : (Z * Z) * ListingRenderer :=
  (font_metrics env,
   {| m_commentcolumn := m_commentcolumn this;
      painted := painted this;
      fontUnit_calls := S (fontUnit_calls this) |}).

(** [measureString(s)]: asks the backend for the width unit, then
    [s.size() * w]. *)
Definition measureString (env : Env) (this : ListingRenderer) (s : string)
  : Z * ListingRenderer :=
  let '((w, _), this) := fontUnit env this in
  (Z.of_nat (String.length s) * w, this).

(** [std::string(n, ' ')]. *)
Fixpoint spaces (n : nat) : string :=
  match n with
  | O => EmptyString
  | S k => String " "%char (spaces k)
  end.

(** [std::to_string] of an integer. *)
Definition to_string (n : Z) : string :=
  DecimalString.NilZero.string_of_int (Z.to_int n).

(** [s.empty()] *)
Definition empty (s : string) : bool :=
  match s with EmptyString => true | _ => false end.

(** ** Layout routines *)

Definition commentSeparator : string := " | ".

(** [ListingRenderer::commentString]: the stream starts with the prefix; a
    separator goes before every comment that differs, as a string, from the
    first one. *)
Definition commentString (instruction : Instruction) : string :=
  let front := hd EmptyString (comments instruction) in
  fold_left
    (fun ss s =>
       let ss := if negb (String.eqb s front) then ss ++ commentSeparator else ss in
       ss ++ s)
    (comments instruction) "# ".

(** [ListingRenderer::renderIndent(rf, n)] *)
Definition renderIndent (env : Env) (n : Z) (this : ListingRenderer)
  (rf : RendererFormat) : ListingRenderer * RendererFormat :=
  let rf := set_style rf EmptyString in
  let rf := set_text rf (spaces (Z.to_nat (n * INDENT_WIDTH))) in
  let this := renderText this rf in
  let '(w, this) := measureString env this (text rf) in
  (this, set_x rf (x rf + w)).

(** [ListingRenderer::renderAddressIndent].  [bits()] is not negative, so
    neither is the number of blanks. *)
Definition renderAddressIndent (env : Env) (item : ListingItem)
  (this : ListingRenderer) (rf : RendererFormat)
  : ListingRenderer * RendererFormat :=
  let segment := doc_segment env (address item) in
  let count := Z.quot (format_bits env) 4 in
  let count :=
    match segment with
    | Some seg => count + Z.of_nat (String.length (name seg))
    | None => count
    end in
  let rf := set_style rf EmptyString in
  let rf := set_text rf (spaces (Z.to_nat (count + INDENT_WIDTH))) in
  let this := renderText this rf in
  let '(w, this) := measureString env this (text rf) in
  (this, set_x rf (x rf + w)).

(** A printer delivers its output by calling the callback it is given,
    once per piece and in order; every call works on the renderer and the
    cursor the previous one left. *)
Definition forEach {A : Type}
  (callback : A -> ListingRenderer -> RendererFormat ->
              ListingRenderer * RendererFormat)
  (pieces : list A) (this : ListingRenderer) (rf : RendererFormat)
  : ListingRenderer * RendererFormat :=
  fold_left (fun acc piece => callback piece (fst acc) (snd acc))
    pieces (this, rf).

(** The callback of [ListingRenderer::renderSegment]. *)
Definition segmentCallback (line : string)
  (this : ListingRenderer) (rf : RendererFormat)
  : ListingRenderer * RendererFormat :=
  let rf := set_style rf "segment_fg" in
  let rf := set_text rf line in
  (renderText this rf, rf).

(** [ListingRenderer::renderSegment] *)
Definition renderSegment (env : Env) (item : ListingItem)
  (this : ListingRenderer) (rf : RendererFormat)
  : ListingRenderer * RendererFormat :=
  forEach segmentCallback
    (printer_segment env (doc_segment env (address item))) this rf.

(** The callback of [ListingRenderer::renderFunction]. *)
Definition functionCallback (env : Env) (pre sym post : string)
  (this : ListingRenderer) (rf : RendererFormat)
  : ListingRenderer * RendererFormat :=
  let rf := set_style rf "function_fg" in
  let '(this, rf) :=
    if negb (empty pre) then
      let rf := set_text rf pre in
      let this := renderText this rf in
      let '(w, this) := measureString env this pre in
      (this, set_x rf (x rf + w))
    else (this, rf) in
  let rf := set_text rf sym in
  let this := renderText this rf in
  if negb (empty post) then
    let '(w, this) := measureString env this sym in
    let rf := set_x rf (x rf + w) in
    let rf := set_text rf post in
    (renderText this rf, rf)
  else (this, rf).

(** [ListingRenderer::renderFunction] *)
Definition renderFunction (env : Env) (item : ListingItem)
  (this : ListingRenderer) (rf : RendererFormat)
  : ListingRenderer * RendererFormat :=
  let '(this, rf) := renderAddressIndent env item this rf in
  forEach (fun '(pre, sym, post) => functionCallback env pre sym post)
    (printer_function env (doc_symbol env (address item))) this rf.

(** [ListingRenderer::renderAddress] *)
Definition renderAddress (env : Env) (item : ListingItem)
  (this : ListingRenderer) (rf : RendererFormat)
  : ListingRenderer * RendererFormat :=
  let segment := doc_segment env (address item) in
  let rf := set_style rf "address_fg" in
  let rf :=
    set_text rf
      ((match segment with Some seg => name seg | None => "unk" end)
         ++ ":" ++ hex env (address item) (format_bits env) false) in
  let this := renderText this rf in
  let '(w, this) := measureString env this (text rf) in
  let rf := set_x rf (x rf + w) in
  renderIndent env 1 this rf.

(** The style assignment at the head of [ListingRenderer::renderMnemonic]. *)
Definition mnemonicStyle (instruction : Instruction) (rf : RendererFormat)
  : RendererFormat :=
  if isInvalid instruction then set_style rf "instruction_invalid"
  else if Instruction_is instruction Stop then set_style rf "instruction_stop"
  else if Instruction_is instruction Nop then set_style rf "instruction_nop"
  else if Instruction_is instruction Call then set_style rf "instruction_call"
  else if Instruction_is instruction Jump then
    if Instruction_is instruction Conditional
    then set_style rf "instruction_jmp_c"
    else set_style rf "instruction_jmp"
  else rf.

(** [ListingRenderer::renderMnemonic] *)
Definition renderMnemonic (env : Env) (instruction : Instruction)
  (this : ListingRenderer) (rf : RendererFormat)
  : ListingRenderer * RendererFormat :=
  let rf := mnemonicStyle instruction rf in
  let rf := set_text rf (mnemonic instruction ++ " ") in
  let this := renderText this rf in
  let '(w, this) := measureString env this (text rf) in
  (this, set_x rf (x rf + w)).

(** The style assignment of an operand in [renderOperands]. *)
Definition operandStyle (operand : Operand) (rf : RendererFormat)
  : RendererFormat :=
  if isNumeric operand then
    if Operand_is operand Memory then set_style rf "memory_fg"
    else set_style rf "immediate_fg"
  else if Operand_is operand Displacement then set_style rf "displacement_fg"
  else if Operand_is operand Register then set_style rf "register_fg"
  else rf.

(** The callback of [ListingRenderer::renderOperands]. *)
Definition operandCallback (env : Env) (operand : Operand)
  (opsize opstr : string) (this : ListingRenderer) (rf : RendererFormat)
  : ListingRenderer * RendererFormat :=
  let rf := set_text rf EmptyString in
  let '(this, rf) :=
    if index operand >? 0 then
      let rf := set_style rf EmptyString in
      let rf := set_text rf ", " in
      let this := renderText this rf in
      let rf := set_x rf (x rf + fontwidth rf * 2) in
      (this, set_text rf EmptyString)
    else (this, rf) in
  let rf := operandStyle operand rf in
  let rf := if negb (empty opsize) then set_text rf (opsize ++ " ") else rf in
  let rf := set_text rf (text rf ++ opstr) in
  let this := renderText this rf in
  let '(w, this) := measureString env this (text rf) in
  (this, set_x rf (x rf + w)).

(** [ListingRenderer::renderOperands] *)
Definition renderOperands (env : Env) (instruction : Instruction)
  (this : ListingRenderer) (rf : RendererFormat)
  : ListingRenderer * RendererFormat :=
  forEach (fun '(operand, opsize, opstr) =>
             operandCallback env operand opsize opstr)
    (printer_out env instruction) this rf.

(** [ListingRenderer::renderComments] *)
Definition renderComments (instruction : Instruction)
  (this : ListingRenderer) (rf : RendererFormat)
  : ListingRenderer * RendererFormat :=
  let rf := set_x rf ((m_commentcolumn this + INDENT_WIDTH) * fontwidth rf) in
  let rf := set_style rf "comment_fg" in
  let rf := set_text rf (commentString instruction) in
  (renderText this rf, rf).

(** The assignment [m_commentcolumn = v]. *)
Definition set_commentcolumn (this : ListingRenderer) (v : Z)
  : ListingRenderer :=
  {| m_commentcolumn := v;
     painted := painted this;
     fontUnit_calls := fontUnit_calls this |}.

(** The first three steps of [renderInstruction]: address, mnemonic and
    operands. *)
Definition renderInstructionBody (env : Env) (item : ListingItem)
  (this : ListingRenderer) (rf : RendererFormat)
  : ListingRenderer * RendererFormat :=
  let instruction := doc_instruction env (address item) in
  let '(this, rf) := renderAddress env item this rf in
  let '(this, rf) := renderMnemonic env instruction this rf in
  renderOperands env instruction this rf.

(** [ListingRenderer::renderInstruction] *)
Definition renderInstruction (env : Env) (item : ListingItem)
  (this : ListingRenderer) (rf : RendererFormat)
  : ListingRenderer * RendererFormat :=
  let instruction := doc_instruction env (address item) in
  let '(this, rf) := renderInstructionBody env item this rf in
  let this :=
    if x rf >? m_commentcolumn this then set_commentcolumn this (x rf)
    else this in
  match comments instruction with
  | [] => (this, rf)
  | _ :: _ => renderComments instruction this rf
  end.

(** The body of the loop of [ListingRenderer::render], for row [i] of the
    batch showing line [line]. *)
Definition renderRow (env : Env) (i line : Z)
  (this : ListingRenderer) (rf : RendererFormat)
  : ListingRenderer * RendererFormat :=
  let item := doc_itemAt env line in
  let rf := set_x rf 0 in
  let rf := set_y rf (i * fontheight rf) in
  if ListingItem_is item (SegmentItem env) then renderSegment env item this rf
  else if ListingItem_is item (FunctionItem env) then renderFunction env item this rf
  else if ListingItem_is item (InstructionItem env) then renderInstruction env item this rf
  else
    let rf := set_text rf ("Unknown Type: " ++ to_string (type item)) in
    (renderText this rf, rf).

(** The loop of [render]: [for(i, line; line < bound; i++, line++)].  The
    result carries the final value of [i], the number of rows laid out.
    [None] only when the fuel is used up with the condition still true. *)
Fixpoint renderLoop (env : Env) (bound : Z) (fuel : nat) (i line : Z)
  (this : ListingRenderer) (rf : RendererFormat)
  : option (ListingRenderer * RendererFormat * Z) :=
  if line <? bound then
    match fuel with
    | O => None
    | S fuel =>
        let '(this, rf) := renderRow env i line this rf in
        renderLoop env bound fuel (size_t_wrap (i + 1)) (size_t_wrap (line + 1))
          this rf
    end
  else Some (this, rf, i).

(** A freshly constructed [RendererFormat rf] with [rf.userdata] assigned
    and the metrics filled in by [fontUnit]: both strings are empty; [x]
    and [y] are assigned at the head of every row before they are read. *)
Definition freshFormat (w h ud : Z) : RendererFormat :=
  {| x := 0; y := 0; fontwidth := w; fontheight := h;
     style := EmptyString; text := EmptyString; userdata := ud |}.

(** [ListingRenderer::render(start, count, userdata)].  The loop runs at
    most once per line of the document, which is the fuel it is given. *)
Definition render (env : Env) (this : ListingRenderer) (start count ud : Z)
  : option (ListingRenderer * Z) :=
  let end_ := size_t_wrap (start + count) in
  let '((w, h), this) := fontUnit env this in
  let rf := freshFormat w h ud in
  match renderLoop env (Z.min (doc_size env) end_)
          (Z.to_nat (doc_size env)) 0 start this rf with
  | Some (this, _, rows) => Some (this, rows)
  | None => None
  end.

(** The constructor: [m_commentcolumn(0)], nothing painted or asked yet. *)
Definition newRenderer : ListingRenderer :=
  {| m_commentcolumn := 0; painted := []; fontUnit_calls := 0 |}.

(** A sequence of [render] calls [(start, count, userdata)] on one
    renderer. *)
Fixpoint renderCalls (env : Env) (calls : list (Z * Z * Z))
  (this : ListingRenderer) : option ListingRenderer :=
  match calls with
  | [] => Some this
  | (start, count, ud) :: rest =>
      match render env this start count ud with
      | Some (this, _) => renderCalls env rest this
      | None => None
      end
  end.

(** ** The comment join as the specification words it *)

(** All comments in order, joined by the separator, after the prefix. *)
Definition commentString_spec (instruction : Instruction) : string :=
  "# " ++ String.concat commentSeparator (comments instruction).

(** What the loop of [commentString] appends for comments that all differ
    from the first one. *)
Fixpoint separated (l : list string) : string :=
  match l with
  | [] => ""
  | s :: l => commentSeparator ++ s ++ separated l
  end.

(** ** The mnemonic style as the specification words it *)

(** The flags in the order of priority of section 4.4, each with its
    style. *)
Definition mnemonicPriority : list ((Instruction -> bool) * string) :=
  [ (isInvalid, "instruction_invalid");
    ((fun i => Instruction_is i Stop), "instruction_stop");
    ((fun i => Instruction_is i Nop), "instruction_nop");
    ((fun i => Instruction_is i Call), "instruction_call");
    ((fun i => Instruction_is i Jump && Instruction_is i Conditional),
     "instruction_jmp_c");
    ((fun i => Instruction_is i Jump), "instruction_jmp") ].

(** The style of the first flag that matches, if any does. *)
Definition firstMatch (instruction : Instruction) : option string :=
  option_map snd (find (fun p => fst p instruction) mnemonicPriority).

(** ** Quantities the properties speak of *)

(** The width of the backend's font unit. *)
Definition unitWidth (env : Env) : Z := fst (font_metrics env).

(** The text of an operand fragment: the size qualifier and a space when
    the printer supplies one, then the operand. *)
Definition operandText (opsize opstr : string) : string :=
  (if empty opsize then "" else opsize ++ " ") ++ opstr.

(** Does [render] dispatch this item to [renderInstruction]? *)
Definition instructionRow (env : Env) (item : ListingItem) : bool :=
  negb (ListingItem_is item (SegmentItem env))
  && negb (ListingItem_is item (FunctionItem env))
  && ListingItem_is item (InstructionItem env).

(** The lines a call [render(start, count, _)] lays out. *)
Definition laidOut (env : Env) (start count line : Z) : Prop :=
  start <= line < Z.min (doc_size env) (size_t_wrap (start + count)).

(** The x the cursor reaches after the mnemonic and operands of an
    instruction row, under the metrics of the environment. *)
Definition instruction_x (env : Env) (item : ListingItem) : Z :=
  x (snd (renderInstructionBody env item newRenderer
            (freshFormat (fst (font_metrics env)) (snd (font_metrics env)) 0))).

(** How many strings the layout of one row measures. *)
Definition rowMeasures (env : Env) (item : ListingItem) : nat :=
  if ListingItem_is item (SegmentItem env) then 0
  else if ListingItem_is item (FunctionItem env) then
    S (list_sum
         (map (fun '(pre, _, post) =>
                 (if empty pre then 0 else 1) + (if empty post then 0 else 1))%nat
            (printer_function env (doc_symbol env (address item)))))
  else if ListingItem_is item (InstructionItem env) then
    (3 + List.length (printer_out env (doc_instruction env (address item))))%nat
  else 0%nat.

(** The same, summed over the [n] lines from [start] on. *)
Fixpoint measuresUpTo (env : Env) (start : Z) (n : nat) : nat :=
  match n with
  | O => O
  | S k =>
      (measuresUpTo env start k
       + rowMeasures env (doc_itemAt env (start + Z.of_nat k)))%nat
  end.


(** What no layout routine touches, apart from [renderInstruction] on the
    comment column: the comment column, the fragments already painted, the
    metrics and the context token of the cursor. *)
Definition frame (this : ListingRenderer) (rf : RendererFormat)
  (r : ListingRenderer * RendererFormat) : Prop :=
  m_commentcolumn (fst r) = m_commentcolumn this /\
  (exists l, painted (fst r) = (painted this ++ l)%list) /\
  fontwidth (snd r) = fontwidth rf /\
  fontheight (snd r) = fontheight rf /\
  userdata (snd r) = userdata rf.

(** The address prefix and the indent after it. *)
Definition addressFragment (env : Env) (item : ListingItem)
  (rf : RendererFormat) : RendererFormat :=
  set_text (set_style rf "address_fg")
    ((match doc_segment env (address item) with
      | Some seg => name seg
      | None => "unk"
      end) ++ ":" ++ hex env (address item) (format_bits env) false).

(** The mnemonic fragment: the mnemonic and one space, in the style of the
    first matching flag, or in the style [inherited] when none matches. *)
Definition mnemonicFragment (instruction : Instruction)
  (inherited : string) (rf : RendererFormat) : RendererFormat :=
  set_text
    (set_style rf
       (match firstMatch instruction with
        | Some s => s
        | None => inherited
        end))
    (mnemonic instruction ++ " ").

(** The separator painted before an operand: the cursor with the style
    cleared and the text [", "]. *)
Definition separatorFragment (rf : RendererFormat) : RendererFormat :=
  set_text (set_style rf "") ", ".

(** The texts of the fragments of an operand stream as the specification
    words them: a separator before each operand of positive index, then the
    operand. *)
Definition operandTexts (ops : list (Operand * string * string))
  : list string :=
  flat_map
    (fun '(operand, opsize, opstr) =>
       if index operand >? 0 then [", "; operandText opsize opstr]
       else [operandText opsize opstr])
    ops.

(** Two cursors at the same x with the same font width. *)
Definition sameColumn (rf1 rf2 : RendererFormat) : Prop :=
  x rf1 = x rf2 /\ fontwidth rf1 = fontwidth rf2.

(** The fragment of the fallback branch of [render] for row [i], painted
    from the cursor [rf] the previous row left. *)
Definition unknownFragment (item : ListingItem) (i : Z)
  (rf : RendererFormat) : RendererFormat :=
  {| x := 0; y := i * fontheight rf;
     fontwidth := fontwidth rf; fontheight := fontheight rf;
     style := style rf;
     text := "Unknown Type: " ++ to_string (type item);
     userdata := userdata rf |}.

(** ** Further quantities of the layout *)

(** What the loop of [commentString] appends to the prefix: every comment,
    with a separator before it unless it equals [front]. *)
Fixpoint joined (front : string) (l : list string) : string :=
  match l with
  | [] => ""
  | s :: l =>
      (if String.eqb s front then "" else commentSeparator) ++ s
        ++ joined front l
  end.

(** The comments that get a separator. *)
Definition separatedComments (instruction : Instruction) : list string :=
  filter (fun s => negb (String.eqb s (hd "" (comments instruction))))
    (comments instruction).

(** The fragment the segment callback paints for one line. *)
Definition segmentFragment (rf : RendererFormat) (line : string)
  : RendererFormat :=
  set_text (set_style rf "segment_fg") line.

(** The texts one call of the function callback paints. *)
Definition functionTexts (parts : string * string * string) : list string :=
  let '(pre, sym, post) := parts in
  ((if empty pre then [] else [pre]) ++ [sym]
     ++ (if empty post then [] else [post]))%list.

(** The number of blanks of [renderAddressIndent]. *)
Definition addressIndentCount (env : Env) (item : ListingItem) : Z :=
  Z.quot (format_bits env) 4
  + match doc_segment env (address item) with
    | Some seg => Z.of_nat (String.length (name seg))
    | None => 0
    end
  + INDENT_WIDTH.

(** The text of the address prefix. *)
Definition addressText (env : Env) (item : ListingItem) : string :=
  text (addressFragment env item (freshFormat 0 0 0)).

(** The texts of the fragments of one row, in the order they are painted. *)
Definition rowTexts (env : Env) (item : ListingItem) : list string :=
  if ListingItem_is item (SegmentItem env) then
    printer_segment env (doc_segment env (address item))
  else if ListingItem_is item (FunctionItem env) then
    spaces (Z.to_nat (addressIndentCount env item))
      :: flat_map functionTexts
           (printer_function env (doc_symbol env (address item)))
  else if ListingItem_is item (InstructionItem env) then
    let instruction := doc_instruction env (address item) in
    ([addressText env item;
      spaces (Z.to_nat (1 * INDENT_WIDTH));
      (mnemonic instruction ++ " ")%string]
       ++ operandTexts (printer_out env instruction)
       ++ match comments instruction with
          | [] => []
          | _ :: _ => [commentString instruction]
          end)%list
  else ["Unknown Type: " ++ to_string (type item)].

(** The items of the [n] lines from [start] on. *)
Definition itemsFrom (env : Env) (start : Z) (n : nat) : list ListingItem :=
  map (fun k => doc_itemAt env (start + Z.of_nat k)) (seq 0 n).

(** A fragment on the row of a cursor: same y, metrics and context token. *)
Definition sameRow (rf fragment : RendererFormat) : Prop :=
  y fragment = y rf /\
  fontwidth fragment = fontwidth rf /\
  fontheight fragment = fontheight rf /\
  userdata fragment = userdata rf.

(** A routine that only adds fragments on the row of its cursor and
    leaves the cursor on that row. *)
Definition paintsOnRow (this : ListingRenderer) (rf : RendererFormat)
  (r : ListingRenderer * RendererFormat) : Prop :=
  exists l,
    painted (fst r) = (painted this ++ l)%list /\
    Forall (sameRow rf) l /\
    sameRow rf (snd r).

(** Fragments laid side by side: the first starts at [from], each next one
    starts where the previous one ends under the unit width [w], and the
    last one ends at [to]. *)
Fixpoint contiguous (w from : Z) (l : list RendererFormat) (to : Z) : Prop :=
  match l with
  | [] => from = to
  | fragment :: l =>
      x fragment = from /\
      contiguous w (from + Z.of_nat (String.length (text fragment)) * w) l to
  end.

(** The style of an operand fragment by the kind of the operand, with the
    style it keeps when it is of no kind the renderer knows. *)
Definition operandStyleName (operand : Operand) (kept : string) : string :=
  if isNumeric operand then
    if Operand_is operand Memory then "memory_fg" else "immediate_fg"
  else if Operand_is operand Displacement then "displacement_fg"
  else if Operand_is operand Register then "register_fg"
  else kept.

(** The style the cursor holds after a run of fragments: the style of the
    last one painted, or the style [inherited] when none was. *)
Definition lastStyle (inherited : string) (l : list RendererFormat) : string :=
  fold_left (fun _ fragment => style fragment) l inherited.

(** A routine after which the cursor holds the style of the last fragment
    it painted, or the style it had on entry when it painted none. *)
Definition keepsStyle (this : ListingRenderer) (rf : RendererFormat)
  (r : ListingRenderer * RendererFormat) : Prop :=
  exists l,
    painted (fst r) = (painted this ++ l)%list /\
    style (snd r) = lastStyle (style rf) l.

(** ** A concrete listing *)

Module Sample.

(** Modelled from the spec: [REDasm::hex] is declared outside this file
    (section 4.6: lower-case hexadecimal, zero-padded to [bits/4] digits, a
    radix prefix only on request). *)
Fixpoint zeros (n : nat) : string :=
  match n with
  | O => EmptyString
  | S k => String "0"%char (zeros k)
  end.

Definition hexString (address bits : Z) (withprefix : bool) : string :=
  let digits :=
    HexadecimalString.NilZero.string_of_uint (N.to_hex_uint (Z.to_N address)) in
  (if withprefix then "0x" else "")
    ++ zeros (Z.to_nat (Z.quot bits 4) - String.length digits) ++ digits.

Definition noTypes : InstructionTypes -> bool := fun _ => false.

Definition registerOperand (i : Z) : Operand :=
  {| index := i; isNumeric := false;
     Operand_is := fun t => match t with Register => true | _ => false end |}.

Definition immediateOperand (i : Z) : Operand :=
  {| index := i; isNumeric := true; Operand_is := fun _ => false |}.

(** [mov eax, 0x5] with the two comments of the specification's scenario. *)
Definition mov : Instruction :=
  {| mnemonic := "mov"; comments := ["sets eax"; "see also foo"];
     isInvalid := false; Instruction_is := noTypes |}.

(** The same comment attached twice. *)
Definition movTwice : Instruction :=
  {| mnemonic := "mov"; comments := ["sets eax"; "sets eax"];
     isInvalid := false; Instruction_is := noTypes |}.

Definition jne : Instruction :=
  {| mnemonic := "jne"; comments := [];
     isInvalid := false;
     Instruction_is :=
       fun t => match t with Jump | Conditional => true | _ => false end |}.

(** Lines 0..3: a segment, a function, an instruction, and an item of
    the unused kind 99, all at address 0x401000; line 4 is a second
    instruction outside every segment. *)
Definition itemAt (line : Z) : ListingItem :=
  if line =? 0 then {| type := 0; address := 4198400 |}
  else if line =? 1 then {| type := 1; address := 4198400 |}
  else if line =? 2 then {| type := 2; address := 4198400 |}
  else if line =? 3 then {| type := 99; address := 4198400 |}
  else {| type := 2; address := 16 |}.

Definition env : Env :=
  {| doc_size := 5;
     doc_itemAt := itemAt;
     doc_segment :=
       fun a => if a =? 4198400 then Some {| name := "text" |} else None;
     doc_symbol := fun _ => {| symbol_name := "main" |};
     doc_instruction := fun a => if a =? 4198400 then mov else jne;
     SegmentItem := 0;
     FunctionItem := 1;
     InstructionItem := 2;
     printer_segment :=
       fun seg =>
         match seg with
         | Some sg => ["segment " ++ name sg]
         | None => []
         end;
     printer_function := fun sym => [("int ", symbol_name sym, "()")];
     printer_out :=
       fun instruction =>
         if String.eqb (mnemonic instruction) "mov"
         then [(registerOperand 0, "", "eax"); (immediateOperand 1, "", "0x5")]
         else [(immediateOperand 0, "", "401000")];
     format_bits := 32;
     hex := hexString;
     font_metrics := (8, 16) |}.

(** A call through an operand of none of the kinds the renderer knows. *)
Definition plainOperand (i : Z) : Operand :=
  {| index := i; isNumeric := false; Operand_is := fun _ => false |}.

Definition call : Instruction :=
  {| mnemonic := "call"; comments := [];
     isInvalid := false;
     Instruction_is := fun t => match t with Call => true | _ => false end |}.

(** The sample listing with that call as its only instruction. *)
Definition callEnv : Env :=
  {| doc_size := doc_size env;
     doc_itemAt := doc_itemAt env;
     doc_segment := doc_segment env;
     doc_symbol := doc_symbol env;
     doc_instruction := fun _ => call;
     SegmentItem := SegmentItem env;
     FunctionItem := FunctionItem env;
     InstructionItem := InstructionItem env;
     printer_segment := printer_segment env;
     printer_function := printer_function env;
     printer_out := fun _ => [(plainOperand 0, "", "sub_401000")];
     format_bits := format_bits env;
     hex := hex env;
     font_metrics := font_metrics env |}.

End Sample.

(** ** Strings *)

Lemma append_nil_r (s : string) : s ++ "" = s.
Proof. induction s as [|c s IH]; simpl; [reflexivity | now rewrite IH]. Qed.

Lemma append_assoc (a b c : string) : (a ++ b) ++ c = a ++ (b ++ c).
Proof. induction a as [|ch a IH]; simpl; [reflexivity | now rewrite IH]. Qed.

Lemma length_append (a b : string) :
  String.length (a ++ b) = (String.length a + String.length b)%nat.
Proof. induction a as [|ch a IH]; simpl; [reflexivity | now rewrite IH]. Qed.

(** ** The comment join *)

Lemma concat_separated (c : string) (l : list string) :
  String.concat commentSeparator (c :: l) = c ++ separated l.
Proof.
  revert c; induction l as [|a l IH]; intro c.
  - simpl. now rewrite append_nil_r.
  - change (String.concat commentSeparator (c :: a :: l))
      with (c ++ commentSeparator ++ String.concat commentSeparator (a :: l)).
    now rewrite IH.
Qed.

Lemma commentString_loop_distinct (front : string) (l : list string) :
  (forall s, In s l -> s <> front) ->
  forall ss,
    fold_left
      (fun ss s =>
         let ss := if negb (String.eqb s front) then ss ++ commentSeparator else ss in
         ss ++ s) l ss
    = ss ++ separated l.
Proof.
  induction l as [|a l IH]; intros Hne ss; simpl.
  - now rewrite append_nil_r.
  - assert (Ha : String.eqb a front = false)
      by (apply String.eqb_neq, Hne; now left).
    rewrite Ha; simpl.
    rewrite IH by (intros s Hs; apply Hne; now right).
    now rewrite !append_assoc.
Qed.

(** When no later comment repeats the first one, the code joins the
    comments as the specification words it. *)
Lemma commentString_distinct (instruction : Instruction) :
  (forall s, In s (tl (comments instruction)) ->
             s <> hd "" (comments instruction)) ->
  comments instruction <> [] ->
  commentString instruction = commentString_spec instruction.
Proof.
  unfold commentString, commentString_spec.
  destruct (comments instruction) as [|c l]; [congruence|].
  intros Hne _. cbn [hd tl fold_left] in *.
  rewrite String.eqb_refl. cbn [negb].
  rewrite commentString_loop_distinct by exact Hne.
  now rewrite concat_separated, append_assoc.
Qed.

(** C1. With the comment list ["sets eax"; "sets eax"] the rendered text
    has no separator between the two comments: the loop recognises the
    first comment by comparing strings, so a later comment equal to the
    first is taken for the first.  The join of the specification has
    one separator there. *)
Theorem commentString_repeated_first_comment :
  comments Sample.movTwice <> [] /\
  commentString Sample.movTwice = "# sets eaxsets eax" /\
  commentString_spec Sample.movTwice = "# sets eax | sets eax" /\
  commentString Sample.movTwice <> commentString_spec Sample.movTwice.
Proof. repeat split; try reflexivity; discriminate. Qed.

(** ** Frames of the layout routines *)

Lemma frame_refl this rf : frame this rf (this, rf).
Proof.
  unfold frame; simpl; repeat split; try reflexivity.
  exists []; now rewrite app_nil_r.
Qed.

Lemma frame_trans this rf r1 r2 :
  frame this rf r1 -> frame (fst r1) (snd r1) r2 -> frame this rf r2.
Proof.
  intros (Hc & [l Hl] & Hw & Hh & Hu) (Hc' & [l' Hl'] & Hw' & Hh' & Hu').
  unfold frame; repeat split; try congruence.
  exists (l ++ l')%list. now rewrite Hl', Hl, app_assoc.
Qed.

Lemma forEach_cons {A} (f : A -> ListingRenderer -> RendererFormat ->
                             ListingRenderer * RendererFormat) a l this rf :
  forEach f (a :: l) this rf =
  forEach f l (fst (f a this rf)) (snd (f a this rf)).
Proof. unfold forEach; simpl. now destruct (f a this rf). Qed.

Lemma frame_forEach {A} (f : A -> ListingRenderer -> RendererFormat ->
                             ListingRenderer * RendererFormat) (l : list A) :
  (forall a this rf, frame this rf (f a this rf)) ->
  forall this rf, frame this rf (forEach f l this rf).
Proof.
  intro Hf. induction l as [|a l IH]; intros this rf.
  - apply frame_refl.
  - rewrite forEach_cons.
    eapply frame_trans; [apply (Hf a this rf) | apply IH].
Qed.

(** Unfolds a straight-line routine down to the backend calls. *)
Ltac straight :=
  unfold measureString, fontUnit, renderText; simpl;
  repeat match goal with
         | |- context [font_metrics ?e] => destruct (font_metrics e)
         | |- context [if ?b then _ else _] => destruct b
         end; simpl.

Ltac frame_now :=
  unfold frame; simpl; repeat split; try reflexivity;
  try (eexists; rewrite <- ?app_assoc; reflexivity).

Lemma renderIndent_frame env n this rf :
  frame this rf (renderIndent env n this rf).
Proof. unfold renderIndent; straight; frame_now. Qed.

Lemma renderAddressIndent_frame env item this rf :
  frame this rf (renderAddressIndent env item this rf).
Proof. unfold renderAddressIndent; straight; frame_now. Qed.

Lemma renderSegment_frame env item this rf :
  frame this rf (renderSegment env item this rf).
Proof.
  unfold renderSegment. apply frame_forEach.
  intros; unfold segmentCallback; frame_now.
Qed.

Lemma functionCallback_frame env pre sym post this rf :
  frame this rf (functionCallback env pre sym post this rf).
Proof. unfold functionCallback; straight; frame_now. Qed.

Lemma renderFunction_frame env item this rf :
  frame this rf (renderFunction env item this rf).
Proof.
  unfold renderFunction.
  pose proof (renderAddressIndent_frame env item this rf) as H.
  destruct (renderAddressIndent env item this rf) as [this1 rf1].
  eapply frame_trans; [exact H|]. simpl.
  apply frame_forEach. intros [[pre sym] post] ? ?.
  apply functionCallback_frame.
Qed.

Lemma renderAddress_frame env item this rf :
  frame this rf (renderAddress env item this rf).
Proof. unfold renderAddress, renderIndent; straight; frame_now. Qed.

Lemma renderMnemonic_frame env instruction this rf :
  frame this rf (renderMnemonic env instruction this rf).
Proof. unfold renderMnemonic, mnemonicStyle; straight; frame_now. Qed.

Lemma operandCallback_frame env operand opsize opstr this rf :
  frame this rf (operandCallback env operand opsize opstr this rf).
Proof. unfold operandCallback, operandStyle; straight; frame_now. Qed.

Lemma renderOperands_frame env instruction this rf :
  frame this rf (renderOperands env instruction this rf).
Proof.
  unfold renderOperands. apply frame_forEach.
  intros [[operand opsize] opstr] ? ?. apply operandCallback_frame.
Qed.

Lemma renderComments_frame instruction this rf :
  frame this rf (renderComments instruction this rf).
Proof. unfold renderComments; frame_now. Qed.

Lemma renderInstructionBody_frame env item this rf :
  frame this rf (renderInstructionBody env item this rf).
Proof.
  unfold renderInstructionBody.
  pose proof (renderAddress_frame env item this rf) as H1.
  destruct (renderAddress env item this rf) as [this1 rf1].
  pose proof (renderMnemonic_frame env (doc_instruction env (address item)) this1 rf1) as H2.
  destruct (renderMnemonic env (doc_instruction env (address item)) this1 rf1)
    as [this2 rf2].
  eapply frame_trans; [exact H1|]. eapply frame_trans; [exact H2|].
  apply renderOperands_frame.
Qed.

(** ** The instruction row, step by step *)

Lemma mnemonicStyle_firstMatch instruction rf :
  mnemonicStyle instruction rf =
  match firstMatch instruction with
  | Some s => set_style rf s
  | None => rf
  end.
Proof.
  unfold mnemonicStyle, firstMatch, mnemonicPriority; simpl.
  destruct (isInvalid instruction); [reflexivity|].
  destruct (Instruction_is instruction Stop); [reflexivity|].
  destruct (Instruction_is instruction Nop); [reflexivity|].
  destruct (Instruction_is instruction Call); [reflexivity|].
  destruct (Instruction_is instruction Jump); [|reflexivity].
  destruct (Instruction_is instruction Conditional); reflexivity.
Qed.

Lemma mnemonicStyle_x instruction rf : x (mnemonicStyle instruction rf) = x rf.
Proof.
  rewrite mnemonicStyle_firstMatch.
  now destruct (firstMatch instruction).
Qed.

Lemma renderAddress_painted env item this rf :
  exists indent,
    painted (fst (renderAddress env item this rf))
    = (painted this ++ [addressFragment env item rf; indent])%list /\
    style indent = "" /\
    style (snd (renderAddress env item this rf)) = "".
Proof.
  unfold renderAddress, renderIndent, addressFragment; straight;
    eexists; rewrite <- app_assoc; simpl; repeat split; reflexivity.
Qed.

Lemma set_style_same rf : set_style rf (style rf) = rf.
Proof. now destruct rf. Qed.

Lemma renderMnemonic_painted env instruction this rf :
  painted (fst (renderMnemonic env instruction this rf))
  = (painted this ++ [mnemonicFragment instruction (style rf) rf])%list.
Proof.
  unfold renderMnemonic, mnemonicFragment.
  rewrite mnemonicStyle_firstMatch.
  destruct (firstMatch instruction); straight;
    rewrite ?set_style_same; reflexivity.
Qed.

Lemma renderMnemonic_x env instruction this rf :
  x (snd (renderMnemonic env instruction this rf))
  = x rf + Z.of_nat (String.length (mnemonic instruction ++ " ")) * unitWidth env.
Proof.
  unfold renderMnemonic, unitWidth. straight;
    now rewrite mnemonicStyle_x.
Qed.

Lemma renderInstruction_painted_body env item this rf :
  exists l,
    painted (fst (renderInstruction env item this rf))
    = (painted (fst (renderInstructionBody env item this rf)) ++ l)%list.
Proof.
  unfold renderInstruction.
  destruct (renderInstructionBody env item this rf) as [this1 rf1]; simpl.
  destruct (comments (doc_instruction env (address item))).
  - exists []. rewrite app_nil_r.
    now destruct (x rf1 >? m_commentcolumn this1).
  - unfold renderComments; simpl.
    destruct (x rf1 >? m_commentcolumn this1); eexists; reflexivity.
Qed.

(** The fragments an instruction row starts with: address prefix, indent,
    mnemonic. *)
Lemma renderInstruction_head env item this rf :
  exists indent rest,
    painted (fst (renderInstruction env item this rf))
    = (painted this
         ++ addressFragment env item rf
         :: indent
         :: mnemonicFragment (doc_instruction env (address item)) ""
              (snd (renderAddress env item this rf))
         :: rest)%list /\
    style indent = "".
Proof.
  destruct (renderInstruction_painted_body env item this rf) as [l Hl].
  rewrite Hl. unfold renderInstructionBody.
  destruct (renderAddress_painted env item this rf) as (indent & Hp & Hi & Hs).
  destruct (renderAddress env item this rf) as [this1 rf1]; simpl in *.
  pose proof (renderMnemonic_painted env (doc_instruction env (address item)) this1 rf1) as Hm.
  pose proof (renderOperands_frame env (doc_instruction env (address item))) as Ho.
  destruct (renderMnemonic env (doc_instruction env (address item)) this1 rf1)
    as [this2 rf2]; simpl in *.
  destruct (Ho this2 rf2) as (_ & [ops Hops] & _).
  rewrite Hops, Hm, Hp, Hs.
  exists indent, (ops ++ l)%list. split; [|exact Hi].
  rewrite <- !app_assoc. reflexivity.
Qed.

(** C4. The mnemonic fragment carries the style of the first flag that
    matches in the order invalid, stop, nop, call, conditional jump, jump;
    its text is the mnemonic and exactly one space; the cursor advances by
    the measured width of that text.  When no flag matches no style is
    assigned: the fragment keeps the style of the cursor, which on an
    instruction row is the empty style left by the indent. *)
Theorem mnemonic_fragment_style env item this rf :
  let instruction := doc_instruction env (address item) in
  let r := renderMnemonic env instruction this rf in
  let fragment := mnemonicFragment instruction (style rf) rf in
  painted (fst r) = (painted this ++ [fragment])%list /\
  text fragment = mnemonic instruction ++ " " /\
  String.length (text fragment) = S (String.length (mnemonic instruction)) /\
  style fragment
  = match find (fun p => fst p instruction) mnemonicPriority with
    | Some (_, s) => s
    | None => style rf
    end /\
  x fragment = x rf /\
  x (snd r) = x rf + Z.of_nat (String.length (text fragment)) * unitWidth env /\
  fst (measureString env this (text fragment))
  = Z.of_nat (String.length (text fragment)) * unitWidth env /\
  forall th cur,
    exists prefix indent m rest,
      painted (fst (renderInstruction env item th cur))
      = (painted th ++ prefix :: indent :: m :: rest)%list /\
      text m = mnemonic instruction ++ " " /\
      style m = match firstMatch instruction with
                | Some s => s
                | None => ""
                end.
Proof.
  cbv zeta. repeat split.
  - apply renderMnemonic_painted.
  - unfold mnemonicFragment; simpl.
    rewrite length_append. simpl. lia.
  - unfold mnemonicFragment, firstMatch, option_map.
    cbn [style set_text set_style].
    destruct (find (fun p => fst p (doc_instruction env (address item)))
                mnemonicPriority) as [[? ?]|]; reflexivity.
  - apply renderMnemonic_x.
  - unfold measureString, fontUnit, unitWidth.
    now destruct (font_metrics env).
  - intros th cur.
    destruct (renderInstruction_head env item th cur) as (indent & rest & Hp & _).
    do 4 eexists. split; [exact Hp|]. split; reflexivity.
Qed.

(** ** Operands *)

Lemma operandStyle_fields operand rf :
  x (operandStyle operand rf) = x rf /\
  text (operandStyle operand rf) = text rf.
Proof.
  unfold operandStyle.
  destruct (isNumeric operand), (Operand_is operand Memory),
    (Operand_is operand Displacement), (Operand_is operand Register);
    split; reflexivity.
Qed.

Lemma operandCallback_painted env operand opsize opstr this rf :
  exists fragment,
    painted (fst (operandCallback env operand opsize opstr this rf))
    = (painted this
         ++ (if index operand >? 0 then [separatorFragment rf] else [])
         ++ [fragment])%list /\
    text fragment = operandText opsize opstr /\
    x fragment = x rf + (if index operand >? 0 then fontwidth rf * 2 else 0) /\
    fontUnit_calls (fst (operandCallback env operand opsize opstr this rf))
    = S (fontUnit_calls this).
Proof.
  unfold operandCallback, separatorFragment, operandText.
  destruct (index operand >? 0); destruct (empty opsize); straight;
    eexists; (split; [rewrite <- ?app_assoc; reflexivity|]);
    cbn [text x set_text set_x set_style];
    rewrite ?(proj1 (operandStyle_fields _ _)), ?(proj2 (operandStyle_fields _ _));
    cbn [text x set_text set_x set_style];
    repeat split; try reflexivity; lia.
Qed.

Lemma renderOperands_texts env instruction this rf :
  exists l,
    painted (fst (renderOperands env instruction this rf))
    = (painted this ++ l)%list /\
    map text l = operandTexts (printer_out env instruction).
Proof.
  unfold renderOperands, operandTexts.
  revert this rf.
  induction (printer_out env instruction) as [|[[operand opsize] opstr] ops IH];
    intros this rf.
  - exists []. now rewrite app_nil_r.
  - rewrite forEach_cons.
    destruct (operandCallback_painted env operand opsize opstr this rf)
      as (fragment & Hp & Ht & _).
    destruct (IH (fst (operandCallback env operand opsize opstr this rf))
                 (snd (operandCallback env operand opsize opstr this rf)))
      as (l & Hl & Hm).
    rewrite Hl, Hp.
    exists (((if index operand >? 0 then [separatorFragment rf] else [])
             ++ [fragment]) ++ l)%list.
    split; [now rewrite <- !app_assoc|].
    rewrite map_app, Hm. cbn [flat_map]. f_equal.
    destruct (index operand >? 0); simpl; now rewrite Ht.
Qed.

(** C5. One unstyled [", "] fragment is painted immediately before each
    operand of index greater than 0, none before an operand of index 0;
    the separator moves the cursor by twice the cursor's font width, and the
    only string measured in the callback is the operand's own text. *)
Theorem operand_separators env operand opsize opstr this rf :
  let r := operandCallback env operand opsize opstr this rf in
  (if index operand >? 0 then
     exists fragment,
       painted (fst r)
       = (painted this ++ [separatorFragment rf; fragment])%list /\
       style (separatorFragment rf) = "" /\
       text (separatorFragment rf) = ", " /\
       x (separatorFragment rf) = x rf /\
       text fragment = operandText opsize opstr /\
       x fragment = x rf + 2 * fontwidth rf
   else
     exists fragment,
       painted (fst r) = (painted this ++ [fragment])%list /\
       text fragment = operandText opsize opstr /\
       x fragment = x rf) /\
  fontUnit_calls (fst r) = S (fontUnit_calls this) /\
  (forall instruction th cur,
     exists l,
       painted (fst (renderOperands env instruction th cur))
       = (painted th ++ l)%list /\
       map text l = operandTexts (printer_out env instruction)) /\
  operandTexts
    [ ({| index := 0; isNumeric := isNumeric operand;
          Operand_is := Operand_is operand |}, "", "a");
      ({| index := 1; isNumeric := isNumeric operand;
          Operand_is := Operand_is operand |}, "", "b");
      ({| index := 2; isNumeric := isNumeric operand;
          Operand_is := Operand_is operand |}, "", "c") ]
  = ["a"; ", "; "b"; ", "; "c"].
Proof.
  cbv zeta.
  destruct (operandCallback_painted env operand opsize opstr this rf)
    as (fragment & Hp & Ht & Hx & Hq).
  split; [|split; [exact Hq|split; [|reflexivity]]].
  - destruct (index operand >? 0); exists fragment; simpl in Hp;
      repeat split; try assumption; try reflexivity; lia.
  - intros; apply renderOperands_texts.
Qed.

(** ** Functions *)

Lemma forEach_app {A} (f : A -> ListingRenderer -> RendererFormat ->
                            ListingRenderer * RendererFormat) l1 l2 :
  forall this rf,
    forEach f (l1 ++ l2) this rf
    = forEach f l2 (fst (forEach f l1 this rf)) (snd (forEach f l1 this rf)).
Proof.
  induction l1 as [|a l1 IH]; intros this rf.
  - reflexivity.
  - simpl app. rewrite !forEach_cons. apply IH.
Qed.




(** ** The loop of [render] *)

Lemma size_t_wrap_small n : 0 <= n < SIZE_MOD -> size_t_wrap n = n.
Proof. intro H. unfold size_t_wrap. now apply Z.mod_small. Qed.

Lemma size_t_wrap_range n : 0 <= size_t_wrap n < SIZE_MOD.
Proof. unfold size_t_wrap. apply Z.mod_pos_bound. reflexivity. Qed.

Lemma SIZE_MOD_value : SIZE_MOD = 18446744073709551616.
Proof. reflexivity. Qed.

(** The loop rule.  Below a bound that fits [size_t] neither counter
    wraps, the fuel of one iteration per remaining line is enough, and a
    property that every row carries from one line to the next holds when
    the loop is left. *)
Lemma renderLoop_invariant env bound
  (P : Z -> Z -> ListingRenderer -> RendererFormat -> Prop) :
  bound < SIZE_MOD ->
  (forall i line this rf,
      0 <= i <= line -> line < bound -> P i line this rf ->
      P (i + 1) (line + 1)
        (fst (renderRow env i line this rf))
        (snd (renderRow env i line this rf))) ->
  forall fuel i line this rf,
    0 <= i <= line ->
    bound - line <= Z.of_nat fuel ->
    P i line this rf ->
    exists this' rf',
      renderLoop env bound fuel i line this rf
      = Some (this', rf', i + Z.max 0 (bound - line)) /\
      P (i + Z.max 0 (bound - line)) (Z.max line bound) this' rf'.
Proof.
  intros Hbound Hstep.
  induction fuel as [|fuel IH]; intros i line this rf Hi Hfuel HP.
  - simpl in *.
    assert (Hlt : (line <? bound) = false) by (apply Z.ltb_ge; lia).
    rewrite Hlt. exists this, rf.
    replace (Z.max 0 (bound - line)) with 0 by lia.
    replace (Z.max line bound) with line by lia.
    rewrite Z.add_0_r. now split.
  - cbn [renderLoop].
    destruct (line <? bound) eqn:Hlt.
    + apply Z.ltb_lt in Hlt.
      specialize (Hstep i line this rf Hi Hlt HP).
      destruct (renderRow env i line this rf) as [this1 rf1]; simpl in Hstep.
      rewrite (size_t_wrap_small (i + 1)) by lia.
      rewrite (size_t_wrap_small (line + 1)) by lia.
      destruct (IH (i + 1) (line + 1) this1 rf1) as (this' & rf' & Heq & HP');
        [lia | lia | exact Hstep |].
      exists this', rf'.
      replace (i + Z.max 0 (bound - line))
        with (i + 1 + Z.max 0 (bound - (line + 1))) by lia.
      replace (Z.max line bound) with (Z.max (line + 1) bound) by lia.
      now split.
    + apply Z.ltb_ge in Hlt. exists this, rf.
      replace (Z.max 0 (bound - line)) with 0 by lia.
      replace (Z.max line bound) with line by lia.
      rewrite Z.add_0_r. now split.
Qed.

(** The same for a whole call: [render] returns, the number of rows is the
    distance from [start] to the clamped end, and what holds of the fresh
    cursor and is carried by every row holds at the end. *)
Lemma render_invariant env this start count ud
  (P : Z -> Z -> ListingRenderer -> RendererFormat -> Prop) :
  let bound := Z.min (doc_size env) (size_t_wrap (start + count)) in
  0 <= start ->
  P 0 start (snd (fontUnit env this))
    (freshFormat (fst (font_metrics env)) (snd (font_metrics env)) ud) ->
  (forall i line th rf,
      0 <= i <= line -> line < bound -> P i line th rf ->
      P (i + 1) (line + 1)
        (fst (renderRow env i line th rf))
        (snd (renderRow env i line th rf))) ->
  exists this' rf',
    render env this start count ud = Some (this', Z.max 0 (bound - start)) /\
    P (Z.max 0 (bound - start)) (Z.max start bound) this' rf'.
Proof.
  intros bound Hstart Hinit Hstep.
  unfold render. unfold fontUnit in *.
  destruct (font_metrics env) as [w h]; simpl in Hinit.
  pose proof (size_t_wrap_range (start + count)) as Hend.
  destruct (renderLoop_invariant env bound P ltac:(subst bound; lia) Hstep
              (Z.to_nat (doc_size env)) 0 start _ _
              ltac:(lia) ltac:(subst bound; lia) Hinit)
    as (this' & rf' & Heq & HP).
  fold bound. rewrite Heq. exists this', rf'. now split.
Qed.

(** Every call with a well-formed [start] returns. *)
Lemma render_returns env this start count ud :
  0 <= start ->
  exists this' rows, render env this start count ud = Some (this', rows).
Proof.
  intro Hstart.
  destruct (render_invariant env this start count ud (fun _ _ _ _ => True)
              Hstart I (fun _ _ _ _ _ _ _ => I))
    as (this' & _ & Heq & _).
  now exists this', (Z.max 0
    (Z.min (doc_size env) (size_t_wrap (start + count)) - start)).
Qed.




(** ** Addresses outside every segment *)

(** C8. For an instruction whose address no segment covers, the row is
    laid out all the same and its first fragment is the address prefix
    with the name ["unk"]: text ["unk:"] and the hexadecimal address, style
    ["address_fg"]; and a call of [render] over such a listing returns. *)
Theorem missing_segment_prefix env item this rf :
  doc_segment env (address item) = None ->
  (exists fragment indent rest,
      painted (fst (renderInstruction env item this rf))
      = (painted this ++ fragment :: indent :: rest)%list /\
      text fragment = "unk:" ++ hex env (address item) (format_bits env) false /\
      style fragment = "address_fg" /\
      x fragment = x rf /\ y fragment = y rf) /\
  forall start count ud,
    0 <= start ->
    exists this' rows, render env this start count ud = Some (this', rows).
Proof.
  intros Hseg. split.
  - destruct (renderInstruction_head env item this rf)
      as (indent & rest & Hp & _).
    exists (addressFragment env item rf), indent. eexists.
    split; [exact Hp|].
    unfold addressFragment. rewrite Hseg. repeat split; reflexivity.
  - intros. now apply render_returns.
Qed.

Lemma missing_segment_prefix_witness :
  (exists fragment indent rest,
      painted (fst (renderInstruction Sample.env (Sample.itemAt 4) newRenderer
                      (freshFormat 8 16 0)))
      = (painted newRenderer ++ fragment :: indent :: rest)%list /\
      text fragment = "unk:00000010" /\
      style fragment = "address_fg" /\
      x fragment = 0 /\ y fragment = 0) /\
  forall start count ud,
    0 <= start ->
    exists this' rows,
      render Sample.env newRenderer start count ud = Some (this', rows).
Proof.
  apply (missing_segment_prefix Sample.env (Sample.itemAt 4) newRenderer
           (freshFormat 8 16 0)).
  reflexivity.
Defined.

(** ** Font-metric queries *)

Lemma forEach_calls {A} (f : A -> ListingRenderer -> RendererFormat ->
                             ListingRenderer * RendererFormat)
  (n : A -> nat) (l : list A) :
  (forall a this rf,
      fontUnit_calls (fst (f a this rf)) = (fontUnit_calls this + n a)%nat) ->
  forall this rf,
    fontUnit_calls (fst (forEach f l this rf))
    = (fontUnit_calls this + list_sum (map n l))%nat.
Proof.
  intro Hf. induction l as [|a l IH]; intros this rf.
  - simpl. lia.
  - rewrite forEach_cons, IH, Hf. simpl. lia.
Qed.

Lemma functionCallback_calls env pre sym post this rf :
  fontUnit_calls (fst (functionCallback env pre sym post this rf))
  = (fontUnit_calls this
     + ((if empty pre then 0 else 1) + (if empty post then 0 else 1)))%nat.
Proof.
  unfold functionCallback, measureString, fontUnit, renderText.
  destruct (font_metrics env), (empty pre), (empty post); simpl; lia.
Qed.

Lemma renderInstruction_calls env item this rf :
  fontUnit_calls (fst (renderInstruction env item this rf))
  = (fontUnit_calls this
     + (3 + List.length (printer_out env (doc_instruction env (address item)))))%nat.
Proof.
  unfold renderInstruction, renderInstructionBody.
  assert (Ha : fontUnit_calls (fst (renderAddress env item this rf))
               = (fontUnit_calls this + 2)%nat).
  { unfold renderAddress, renderIndent; straight; lia. }
  destruct (renderAddress env item this rf) as [this1 rf1]; simpl in Ha.
  assert (Hm : fontUnit_calls
                 (fst (renderMnemonic env (doc_instruction env (address item)) this1 rf1))
               = (fontUnit_calls this1 + 1)%nat).
  { unfold renderMnemonic; straight; lia. }
  destruct (renderMnemonic env (doc_instruction env (address item)) this1 rf1)
    as [this2 rf2]; simpl in Hm.
  assert (Ho : fontUnit_calls
                 (fst (renderOperands env (doc_instruction env (address item)) this2 rf2))
               = (fontUnit_calls this2
                  + List.length (printer_out env (doc_instruction env (address item))))%nat).
  { unfold renderOperands.
    rewrite (forEach_calls _ (fun _ => 1%nat)).
    - f_equal. induction (printer_out env (doc_instruction env (address item)));
        simpl; [reflexivity | now f_equal].
    - intros [[operand opsize] opstr] th cur.
      destruct (operandCallback_painted env operand opsize opstr th cur)
        as (_ & _ & _ & _ & Hq).
      rewrite Hq. lia. }
  destruct (renderOperands env (doc_instruction env (address item)) this2 rf2)
    as [this3 rf3]; simpl in Ho.
  assert (Hc : forall th, fontUnit_calls
                 (if x rf3 >? m_commentcolumn th
                  then set_commentcolumn th (x rf3) else th)
               = fontUnit_calls th)
    by (intro th; now destruct (x rf3 >? m_commentcolumn th)).
  destruct (comments (doc_instruction env (address item)));
    simpl; rewrite Hc; lia.
Qed.

Lemma renderRow_calls env i line this rf :
  fontUnit_calls (fst (renderRow env i line this rf))
  = (fontUnit_calls this + rowMeasures env (doc_itemAt env line))%nat.
Proof.
  unfold renderRow, rowMeasures.
  destruct (ListingItem_is (doc_itemAt env line) (SegmentItem env)).
  { unfold renderSegment.
    rewrite (forEach_calls _ (fun _ => 0%nat)) by (intros; simpl; lia).
    induction (printer_segment env _); simpl in *; lia. }
  destruct (ListingItem_is (doc_itemAt env line) (FunctionItem env)).
  { unfold renderFunction.
    assert (Ha : forall cur,
               fontUnit_calls (fst (renderAddressIndent env (doc_itemAt env line) this cur))
               = S (fontUnit_calls this))
      by (intro cur; unfold renderAddressIndent; straight; reflexivity).
    specialize (Ha (set_y (set_x rf 0) (i * fontheight (set_x rf 0)))).
    destruct (renderAddressIndent env (doc_itemAt env line) this _)
      as [this1 rf1]; simpl in Ha.
    rewrite (forEach_calls _
               (fun '(pre, _, post) =>
                  ((if empty pre then 0 else 1) + (if empty post then 0 else 1))%nat)).
    - rewrite Ha. lia.
    - intros [[pre sym] post] th cur. apply functionCallback_calls. }
  destruct (ListingItem_is (doc_itemAt env line) (InstructionItem env)).
  { apply renderInstruction_calls. }
  simpl. lia.
Qed.

(** C6 (amended). One call of [render] asks the backend for the font
    metrics once itself, to fill the cursor, and once more for every string
    it measures while laying out its rows: [measureString] queries the
    backend each time it is called. *)
Theorem font_queries_per_render env this start count ud :
  0 <= start ->
  exists this' rows,
    render env this start count ud = Some (this', rows) /\
    fontUnit_calls this'
    = (fontUnit_calls this + 1 + measuresUpTo env start (Z.to_nat rows))%nat /\
    forall th s,
      fontUnit_calls (snd (measureString env th s)) = S (fontUnit_calls th).
Proof.
  intro Hstart.
  destruct (render_invariant env this start count ud
              (fun i line th _ =>
                 line = start + i /\
                 fontUnit_calls th
                 = (fontUnit_calls this + 1 + measuresUpTo env start (Z.to_nat i))%nat)
              Hstart)
    as (this' & _ & Heq & _ & Hcalls).
  - unfold fontUnit; simpl. split; lia.
  - intros i line th rf Hi Hlt [Hline Hq]. split; [lia|].
    rewrite renderRow_calls, Hq.
    replace (Z.to_nat (i + 1)) with (S (Z.to_nat i)) by lia.
    cbn [measuresUpTo].
    replace (start + Z.of_nat (Z.to_nat i)) with line by lia.
    lia.
  - exists this'. eexists. split; [exact Heq|]. split; [exact Hcalls|].
    intros th s. unfold measureString, fontUnit.
    now destruct (font_metrics env).
Qed.

Lemma font_queries_per_render_witness :
  exists this' rows,
    render Sample.env newRenderer 0 5 0 = Some (this', rows) /\
    fontUnit_calls this'
    = (fontUnit_calls newRenderer + 1
       + measuresUpTo Sample.env 0 (Z.to_nat rows))%nat /\
    forall th s,
      fontUnit_calls (snd (measureString Sample.env th s))
      = S (fontUnit_calls th).
Proof.
  apply (font_queries_per_render Sample.env newRenderer 0 5 0). lia.
Defined.

(** C6 as stated fails on a single instruction row: the call of [render]
    for line 4 of the sample listing alone queries the backend five times,
    once in [render] and once for each of the address prefix, the indent,
    the mnemonic and the operand. *)
Lemma font_queries_more_than_once :
  exists this',
    render Sample.env newRenderer 4 1 0 = Some (this', 1) /\
    fontUnit_calls newRenderer = 0%nat /\
    fontUnit_calls this' = 5%nat /\
    fontUnit_calls this' <> 1%nat.
Proof.
  eexists. split; [vm_compute; reflexivity|].
  repeat split. discriminate.
Qed.

(** ** The comment column *)

(** Where the cursor ends on a row depends only on where it starts and on
    its font width, not on the renderer or on the other fields of the
    cursor. *)
Lemma renderAddress_sameColumn env item this1 rf1 this2 rf2 :
  sameColumn rf1 rf2 ->
  sameColumn (snd (renderAddress env item this1 rf1))
             (snd (renderAddress env item this2 rf2)).
Proof.
  intros [Hx Hw]. unfold sameColumn, renderAddress, renderIndent; straight;
    split; congruence.
Qed.

Lemma renderMnemonic_sameColumn env instruction this1 rf1 this2 rf2 :
  sameColumn rf1 rf2 ->
  sameColumn (snd (renderMnemonic env instruction this1 rf1))
             (snd (renderMnemonic env instruction this2 rf2)).
Proof.
  intros [Hx Hw]. split.
  - rewrite !renderMnemonic_x. congruence.
  - destruct (renderMnemonic_frame env instruction this1 rf1) as (_ & _ & H1 & _).
    destruct (renderMnemonic_frame env instruction this2 rf2) as (_ & _ & H2 & _).
    congruence.
Qed.

Lemma operandCallback_x env operand opsize opstr this rf :
  x (snd (operandCallback env operand opsize opstr this rf))
  = x rf + (if index operand >? 0 then fontwidth rf * 2 else 0)
    + Z.of_nat (String.length (operandText opsize opstr)) * unitWidth env.
Proof.
  unfold operandCallback, operandText, unitWidth, measureString, fontUnit,
    renderText.
  destruct (font_metrics env) as [w h].
  destruct (index operand >? 0), (empty opsize);
    cbn [fst snd x text set_x set_text set_style negb];
    rewrite ?(proj1 (operandStyle_fields _ _)), ?(proj2 (operandStyle_fields _ _));
    cbn [fst snd x fontwidth text set_x set_text set_style]; lia.
Qed.

Lemma operandCallback_sameColumn env operand opsize opstr this1 rf1 this2 rf2 :
  sameColumn rf1 rf2 ->
  sameColumn (snd (operandCallback env operand opsize opstr this1 rf1))
             (snd (operandCallback env operand opsize opstr this2 rf2)).
Proof.
  intros [Hx Hw]. split.
  - rewrite !operandCallback_x. now rewrite Hx, Hw.
  - destruct (operandCallback_frame env operand opsize opstr this1 rf1)
      as (_ & _ & H1 & _).
    destruct (operandCallback_frame env operand opsize opstr this2 rf2)
      as (_ & _ & H2 & _).
    congruence.
Qed.

Lemma renderOperands_sameColumn env instruction this1 rf1 this2 rf2 :
  sameColumn rf1 rf2 ->
  sameColumn (snd (renderOperands env instruction this1 rf1))
             (snd (renderOperands env instruction this2 rf2)).
Proof.
  unfold renderOperands. revert this1 rf1 this2 rf2.
  induction (printer_out env instruction) as [|[[operand opsize] opstr] ops IH];
    intros this1 rf1 this2 rf2 Hs.
  - exact Hs.
  - rewrite !forEach_cons. apply IH.
    now apply operandCallback_sameColumn.
Qed.

Lemma renderInstructionBody_sameColumn env item this1 rf1 this2 rf2 :
  sameColumn rf1 rf2 ->
  sameColumn (snd (renderInstructionBody env item this1 rf1))
             (snd (renderInstructionBody env item this2 rf2)).
Proof.
  intro Hs. unfold renderInstructionBody.
  pose proof (renderAddress_sameColumn env item this1 rf1 this2 rf2 Hs) as Ha.
  destruct (renderAddress env item this1 rf1) as [th1 c1].
  destruct (renderAddress env item this2 rf2) as [th2 c2].
  simpl in Ha.
  pose proof (renderMnemonic_sameColumn env (doc_instruction env (address item))
                th1 c1 th2 c2 Ha) as Hm.
  destruct (renderMnemonic env _ th1 c1) as [th1' c1'].
  destruct (renderMnemonic env _ th2 c2) as [th2' c2'].
  simpl in Hm. now apply renderOperands_sameColumn.
Qed.

(** The bookkeeping step raises the column to the x reached by mnemonic
    and operands when that is further right; the comment fragment painted
    afterwards leaves the column alone. *)
Lemma renderInstruction_commentcolumn env item this rf :
  m_commentcolumn (fst (renderInstruction env item this rf))
  = Z.max (m_commentcolumn this)
      (x (snd (renderInstructionBody env item this rf))).
Proof.
  unfold renderInstruction.
  destruct (renderInstructionBody_frame env item this rf) as (Hc & _).
  destruct (renderInstructionBody env item this rf) as [this1 rf1];
    simpl in *.
  assert (Hb : m_commentcolumn
                 (if x rf1 >? m_commentcolumn this1
                  then set_commentcolumn this1 (x rf1) else this1)
               = Z.max (m_commentcolumn this) (x rf1)).
  { destruct (x rf1 >? m_commentcolumn this1) eqn:Hgt; simpl.
    - rewrite Z.gtb_ltb in Hgt. apply Z.ltb_lt in Hgt. lia.
    - rewrite Z.gtb_ltb in Hgt. apply Z.ltb_ge in Hgt. lia. }
  destruct (comments (doc_instruction env (address item))); simpl; exact Hb.
Qed.

Lemma renderInstruction_fontwidth env item this rf :
  fontwidth (snd (renderInstruction env item this rf)) = fontwidth rf.
Proof.
  unfold renderInstruction.
  destruct (renderInstructionBody_frame env item this rf) as (_ & _ & Hw & _).
  destruct (renderInstructionBody env item this rf) as [this1 rf1];
    simpl in *.
  destruct (comments (doc_instruction env (address item))); simpl; exact Hw.
Qed.

(** One row: the font width of the cursor is kept, the comment column does
    not decrease, and after an instruction row it is at least the x the row
    reached. *)
Lemma renderRow_commentcolumn env i line this rf :
  let r := renderRow env i line this rf in
  fontwidth (snd r) = fontwidth rf /\
  m_commentcolumn this <= m_commentcolumn (fst r) /\
  (fontwidth rf = fst (font_metrics env) ->
   instructionRow env (doc_itemAt env line) = true ->
   instruction_x env (doc_itemAt env line) <= m_commentcolumn (fst r)).
Proof.
  unfold renderRow, instructionRow.
  set (cur := set_y (set_x rf 0) (i * fontheight (set_x rf 0))).
  destruct (ListingItem_is (doc_itemAt env line) (SegmentItem env)).
  { destruct (renderSegment_frame env (doc_itemAt env line) this cur)
      as (Hc & _ & Hw & _).
    cbv zeta. rewrite Hc, Hw. simpl. repeat split; [lia | discriminate]. }
  destruct (ListingItem_is (doc_itemAt env line) (FunctionItem env)).
  { destruct (renderFunction_frame env (doc_itemAt env line) this cur)
      as (Hc & _ & Hw & _).
    cbv zeta. rewrite Hc, Hw. simpl. repeat split; [lia | discriminate]. }
  destruct (ListingItem_is (doc_itemAt env line) (InstructionItem env)).
  { cbv zeta. rewrite renderInstruction_commentcolumn, renderInstruction_fontwidth.
    repeat split; [lia|]. intros Hfw _.
    unfold instruction_x.
    destruct (renderInstructionBody_sameColumn env (doc_itemAt env line)
                this cur newRenderer
                (freshFormat (fst (font_metrics env)) (snd (font_metrics env)) 0))
      as [Hx _].
    - split; simpl; [reflexivity | exact Hfw].
    - rewrite <- Hx. lia. }
  simpl. repeat split; [lia | discriminate].
Qed.

(** One call. *)
Lemma render_commentcolumn env this start count ud :
  0 <= start ->
  exists this' rows,
    render env this start count ud = Some (this', rows) /\
    m_commentcolumn this <= m_commentcolumn this' /\
    forall line,
      laidOut env start count line ->
      instructionRow env (doc_itemAt env line) = true ->
      instruction_x env (doc_itemAt env line) <= m_commentcolumn this'.
Proof.
  intro Hstart.
  destruct (render_invariant env this start count ud
              (fun _ line th rf =>
                 fontwidth rf = fst (font_metrics env) /\
                 m_commentcolumn this <= m_commentcolumn th /\
                 forall l, start <= l < line ->
                   instructionRow env (doc_itemAt env l) = true ->
                   instruction_x env (doc_itemAt env l) <= m_commentcolumn th)
              Hstart)
    as (this' & rf' & Heq & _ & Hmono & Hrows).
  - unfold fontUnit; simpl. repeat split; [lia|]. intros l Hl. lia.
  - intros i line th rf Hi Hlt (Hfw & Hmono & Hrows).
    destruct (renderRow_commentcolumn env i line th rf) as (Hfw' & Hle & Hx).
    repeat split; [congruence | lia |].
    intros l Hl Hinstr.
    destruct (Z.eq_dec l line) as [->|Hne].
    + now apply Hx.
    + specialize (Hrows l ltac:(lia) Hinstr). lia.
  - exists this'. eexists. split; [exact Heq|]. split; [exact Hmono|].
    intros line [Hl1 Hl2]. apply Hrows. lia.
Qed.

(** C3. Over any sequence of [render] calls on one renderer, with the
    same document and font metrics: every call returns; the comment column
    at the end is at least what it was at the start (so it never
    decreases from one call to the next); it is at least the x reached by
    the mnemonic and operands of every instruction row any of the calls
    laid out; and within a row the column after the row is the larger of
    the column before it and that x, comments or not. *)
Theorem commentcolumn_high_water env calls this :
  Forall (fun call => 0 <= fst (fst call)) calls ->
  exists this',
    renderCalls env calls this = Some this' /\
    m_commentcolumn this <= m_commentcolumn this' /\
    (forall start count ud line,
        In (start, count, ud) calls ->
        laidOut env start count line ->
        instructionRow env (doc_itemAt env line) = true ->
        instruction_x env (doc_itemAt env line) <= m_commentcolumn this') /\
    (forall item th rf,
        m_commentcolumn (fst (renderInstruction env item th rf))
        = Z.max (m_commentcolumn th)
            (x (snd (renderInstructionBody env item th rf)))) /\
    (forall instruction th rf,
        m_commentcolumn (fst (renderComments instruction th rf))
        = m_commentcolumn th).
Proof.
  intro Hcalls. revert this.
  induction Hcalls as [|[[start count] ud] calls Hstart _ IH]; intro this.
  - exists this. simpl. repeat split; try lia; try tauto.
    apply renderInstruction_commentcolumn.
  - simpl in Hstart.
    destruct (render_commentcolumn env this start count ud Hstart)
      as (this1 & rows & Heq & Hmono & Hrows).
    destruct (IH this1) as (this' & Heq' & Hmono' & Hrows' & Hrow & Hcomment).
    exists this'. cbn [renderCalls]. rewrite Heq.
    split; [exact Heq'|]. split; [lia|]. split; [|split; assumption].
    intros s c u line [Hin|Hin] Hl Hinstr.
    + injection Hin as <- <- <-.
      specialize (Hrows line Hl Hinstr). lia.
    + now apply (Hrows' s c u).
Qed.

Lemma commentcolumn_high_water_witness :
  exists this',
    renderCalls Sample.env [(0, 5, 0); (4, 1, 0); (2, 1, 0)] newRenderer
    = Some this' /\
    m_commentcolumn newRenderer <= m_commentcolumn this' /\
    (forall start count ud line,
        In (start, count, ud) [(0, 5, 0); (4, 1, 0); (2, 1, 0)] ->
        laidOut Sample.env start count line ->
        instructionRow Sample.env (doc_itemAt Sample.env line) = true ->
        instruction_x Sample.env (doc_itemAt Sample.env line)
        <= m_commentcolumn this') /\
    (forall item th rf,
        m_commentcolumn (fst (renderInstruction Sample.env item th rf))
        = Z.max (m_commentcolumn th)
            (x (snd (renderInstructionBody Sample.env item th rf)))) /\
    (forall instruction th rf,
        m_commentcolumn (fst (renderComments instruction th rf))
        = m_commentcolumn th).
Proof.
  apply (commentcolumn_high_water Sample.env
           [(0, 5, 0); (4, 1, 0); (2, 1, 0)] newRenderer).
  repeat constructor; simpl; lia.
Defined.

(** ** Rows of unknown kind and the style of the cursor *)

Lemma renderRow_unknown env i line this rf :
  type (doc_itemAt env line) <> SegmentItem env ->
  type (doc_itemAt env line) <> FunctionItem env ->
  type (doc_itemAt env line) <> InstructionItem env ->
  renderRow env i line this rf
  = (renderText this (unknownFragment (doc_itemAt env line) i rf),
     unknownFragment (doc_itemAt env line) i rf).
Proof.
  intros Hs Hf Hi. unfold renderRow, ListingItem_is.
  apply Z.eqb_neq in Hs, Hf, Hi. rewrite Hs, Hf, Hi. reflexivity.
Qed.

(** C9 as stated fails on a later row: in the call for lines 2 and 3 of
    the sample listing the fallback fragment of line 3 comes out in the
    style ["comment_fg"] that the comment of line 2 left on the cursor. *)
Lemma unknown_kind_keeps_previous_style :
  exists this' fragment,
    render Sample.env newRenderer 2 2 0 = Some (this', 2) /\
    type (doc_itemAt Sample.env 3) = 99 /\
    nth_error (painted this') 7 = Some fragment /\
    List.length (painted this') = 8%nat /\
    text fragment = "Unknown Type: 99" /\
    style fragment = "comment_fg" /\
    style fragment <> style (freshFormat 8 16 0).
Proof.
  do 2 eexists. split; [vm_compute; reflexivity|].
  split; [reflexivity|]. split; [reflexivity|].
  repeat split. discriminate.
Qed.


(** * Further properties of the layout routines *)

(** ** Blanks *)

Lemma spaces_length n : String.length (spaces n) = n.
Proof. induction n; simpl; congruence. Qed.

(** ** [commentString] *)

Lemma commentString_loop (front : string) (l : list string) :
  forall ss,
    fold_left
      (fun ss s =>
         let ss := if negb (String.eqb s front) then ss ++ commentSeparator else ss in
         ss ++ s) l ss
    = ss ++ joined front l.
Proof.
  induction l as [|a l IH]; intro ss; simpl.
  - now rewrite append_nil_r.
  - rewrite IH. destruct (String.eqb a front); simpl;
      now rewrite ?append_assoc.
Qed.

Lemma joined_length front l :
  String.length (joined front l)
  = (list_sum (map String.length l)
     + 3 * List.length (filter (fun s => negb (String.eqb s front)) l))%nat.
Proof.
  induction l as [|a l IH]; simpl; [reflexivity|].
  destruct (String.eqb a front); simpl;
    rewrite ?length_append, IH; simpl; lia.
Qed.

(** Whatever the comments, the text is the prefix ["# "] followed by
    every comment in order, each with a separator before it exactly when
    it differs from the first comment; so its length is that of prefix and
    comments together plus three for each comment that differs from the
    first one. *)
Theorem commentString_length instruction :
  commentString instruction
  = "# " ++ joined (hd "" (comments instruction)) (comments instruction) /\
  joined (hd "" (comments instruction)) []  = "" /\
  (forall s l,
      joined (hd "" (comments instruction)) (s :: l)
      = (if String.eqb s (hd "" (comments instruction)) then ""
         else commentSeparator)
          ++ s ++ joined (hd "" (comments instruction)) l) /\
  String.length (commentString instruction)
  = (2 + list_sum (map String.length (comments instruction))
     + 3 * List.length (separatedComments instruction))%nat.
Proof.
  unfold commentString, separatedComments.
  rewrite commentString_loop.
  split; [reflexivity|]. split; [reflexivity|]. split; [reflexivity|].
  rewrite length_append, joined_length. simpl. lia.
Qed.

Lemma commentString_distinct_witness :
  commentString Sample.mov = commentString_spec Sample.mov.
Proof.
  apply (commentString_distinct Sample.mov).
  - simpl. intros s [<-|[]]. discriminate.
  - discriminate.
Defined.

(** ** Segment rows *)

Lemma renderSegment_forEach lines :
  forall this rf,
    let r := forEach segmentCallback lines this rf in
    painted (fst r) = (painted this ++ map (segmentFragment rf) lines)%list /\
    m_commentcolumn (fst r) = m_commentcolumn this /\
    fontUnit_calls (fst r) = fontUnit_calls this /\
    x (snd r) = x rf /\ y (snd r) = y rf.
Proof.
  induction lines as [|line lines IH]; intros this rf.
  - simpl. rewrite app_nil_r. repeat split.
  - cbv zeta. rewrite forEach_cons.
    destruct (IH (fst (segmentCallback line this rf))
                 (snd (segmentCallback line this rf)))
      as (Hp & Hc & Hq & Hx & Hy).
    rewrite Hp, Hc, Hq, Hx, Hy. simpl.
    rewrite <- app_assoc. repeat split.
Qed.

(** A segment row paints one fragment per line the printer delivers, each
    with the line as text and the style ["segment_fg"], all of them at the
    position the cursor has on entry: the cursor is not moved between the
    lines nor after them, and no string is measured. *)
Theorem renderSegment_fragments env item this rf :
  let lines := printer_segment env (doc_segment env (address item)) in
  let r := renderSegment env item this rf in
  painted (fst r) = (painted this ++ map (segmentFragment rf) lines)%list /\
  Forall (fun fragment =>
            x fragment = x rf /\ y fragment = y rf /\
            style fragment = "segment_fg")
    (map (segmentFragment rf) lines) /\
  map text (map (segmentFragment rf) lines) = lines /\
  x (snd r) = x rf /\
  fontUnit_calls (fst r) = fontUnit_calls this /\
  m_commentcolumn (fst r) = m_commentcolumn this.
Proof.
  cbv zeta. unfold renderSegment.
  destruct (renderSegment_forEach
              (printer_segment env (doc_segment env (address item))) this rf)
    as (Hp & Hc & Hq & Hx & _).
  repeat split; try assumption.
  - apply Forall_forall. intros f Hf. apply in_map_iff in Hf.
    destruct Hf as (line & <- & _). repeat split.
  - rewrite map_map. simpl. apply map_id.
Qed.

(** ** Fragments stay on the row of the cursor *)

Lemma sameRow_refl rf : sameRow rf rf.
Proof. repeat split. Qed.

Lemma sameRow_trans rf1 rf2 rf3 :
  sameRow rf1 rf2 -> sameRow rf2 rf3 -> sameRow rf1 rf3.
Proof.
  intros (Hy & Hw & Hh & Hu) (Hy' & Hw' & Hh' & Hu').
  repeat split; congruence.
Qed.

Lemma paintsOnRow_refl this rf : paintsOnRow this rf (this, rf).
Proof.
  exists []. simpl. rewrite app_nil_r.
  split; [reflexivity|]. split; [constructor | apply sameRow_refl].
Qed.

Lemma paintsOnRow_trans this rf r1 r2 :
  paintsOnRow this rf r1 -> paintsOnRow (fst r1) (snd r1) r2 ->
  paintsOnRow this rf r2.
Proof.
  intros (l1 & Hp1 & Hf1 & Hs1) (l2 & Hp2 & Hf2 & Hs2).
  exists (l1 ++ l2)%list. split; [now rewrite Hp2, Hp1, app_assoc|].
  split.
  - apply Forall_app. split; [exact Hf1|].
    eapply Forall_impl; [|exact Hf2].
    intros f Hf. eapply sameRow_trans; eassumption.
  - eapply sameRow_trans; eassumption.
Qed.

Lemma paintsOnRow_forEach {A} (f : A -> ListingRenderer -> RendererFormat ->
                                   ListingRenderer * RendererFormat) (l : list A) :
  (forall a this rf, paintsOnRow this rf (f a this rf)) ->
  forall this rf, paintsOnRow this rf (forEach f l this rf).
Proof.
  intro Hf. induction l as [|a l IH]; intros this rf.
  - apply paintsOnRow_refl.
  - rewrite forEach_cons.
    eapply paintsOnRow_trans; [apply (Hf a this rf) | apply IH].
Qed.

Ltac onRow_now :=
  eexists; simpl;
  (split; [rewrite <- ?app_assoc; reflexivity|]);
  split; [repeat constructor | repeat split].

Lemma renderAddressIndent_onRow env item this rf :
  paintsOnRow this rf (renderAddressIndent env item this rf).
Proof. unfold renderAddressIndent; straight; onRow_now. Qed.

Lemma segmentCallback_onRow line this rf :
  paintsOnRow this rf (segmentCallback line this rf).
Proof. unfold segmentCallback, renderText; onRow_now. Qed.

Lemma functionCallback_onRow env pre sym post this rf :
  paintsOnRow this rf (functionCallback env pre sym post this rf).
Proof. unfold functionCallback; straight; onRow_now. Qed.

Lemma renderAddress_onRow env item this rf :
  paintsOnRow this rf (renderAddress env item this rf).
Proof. unfold renderAddress, renderIndent; straight; onRow_now. Qed.

Lemma mnemonicStyle_sameRow instruction rf :
  sameRow rf (mnemonicStyle instruction rf).
Proof.
  rewrite mnemonicStyle_firstMatch.
  destruct (firstMatch instruction); repeat split.
Qed.

Lemma renderMnemonic_onRow env instruction this rf :
  paintsOnRow this rf (renderMnemonic env instruction this rf).
Proof.
  destruct (mnemonicStyle_sameRow instruction rf) as (Hy & Hw & Hh & Hu).
  unfold renderMnemonic; straight; eexists; simpl;
    (split; [reflexivity|]);
    (split; [repeat constructor; simpl; assumption
            | repeat split; simpl; assumption]).
Qed.

Lemma operandStyle_sameRow operand rf : sameRow rf (operandStyle operand rf).
Proof.
  unfold operandStyle.
  destruct (isNumeric operand), (Operand_is operand Memory),
    (Operand_is operand Displacement), (Operand_is operand Register);
    repeat split.
Qed.

Lemma operandCallback_onRow env operand opsize opstr this rf :
  paintsOnRow this rf (operandCallback env operand opsize opstr this rf).
Proof.
  unfold operandCallback, measureString, fontUnit, renderText.
  destruct (font_metrics env) as [w h].
  destruct (index operand >? 0), (empty opsize); simpl;
    match goal with
    | |- context [operandStyle operand ?c] =>
        destruct (operandStyle_sameRow operand c) as (Hy & Hw & Hh & Hu);
        simpl in Hy, Hw, Hh, Hu
    end;
    eexists; simpl;
    (split; [rewrite <- ?app_assoc; reflexivity|]);
    (split; [repeat constructor; simpl; assumption
            | repeat split; simpl; assumption]).
Qed.

Lemma renderInstruction_onRow env item this rf :
  paintsOnRow this rf (renderInstruction env item this rf).
Proof.
  assert (Hbody : paintsOnRow this rf (renderInstructionBody env item this rf)).
  { unfold renderInstructionBody.
    pose proof (renderAddress_onRow env item this rf) as H1.
    destruct (renderAddress env item this rf) as [this1 rf1].
    pose proof (renderMnemonic_onRow env (doc_instruction env (address item))
                  this1 rf1) as H2.
    destruct (renderMnemonic env (doc_instruction env (address item)) this1 rf1)
      as [this2 rf2].
    eapply paintsOnRow_trans; [exact H1|].
    eapply paintsOnRow_trans; [exact H2|].
    unfold renderOperands. apply paintsOnRow_forEach.
    intros [[operand opsize] opstr] ? ?. apply operandCallback_onRow. }
  unfold renderInstruction.
  destruct (renderInstructionBody env item this rf) as [this1 rf1].
  eapply paintsOnRow_trans; [exact Hbody|]. simpl.
  destruct (comments (doc_instruction env (address item))).
  - exists []. rewrite app_nil_r.
    destruct (x rf1 >? m_commentcolumn this1); simpl;
      (split; [reflexivity|]); split; [constructor | repeat split
                                       | constructor | repeat split].
  - unfold renderComments, renderText.
    destruct (x rf1 >? m_commentcolumn this1); onRow_now.
Qed.

Lemma renderRow_onRow env i line this rf :
  paintsOnRow this (set_y (set_x rf 0) (i * fontheight rf))
    (renderRow env i line this rf).
Proof.
  unfold renderRow.
  change (fontheight (set_x rf 0)) with (fontheight rf).
  set (cur := set_y (set_x rf 0) (i * fontheight rf)).
  destruct (ListingItem_is (doc_itemAt env line) (SegmentItem env)).
  { unfold renderSegment. apply paintsOnRow_forEach.
    intros; apply segmentCallback_onRow. }
  destruct (ListingItem_is (doc_itemAt env line) (FunctionItem env)).
  { unfold renderFunction.
    pose proof (renderAddressIndent_onRow env (doc_itemAt env line) this cur) as H.
    destruct (renderAddressIndent env (doc_itemAt env line) this cur)
      as [this1 rf1].
    eapply paintsOnRow_trans; [exact H|].
    apply paintsOnRow_forEach. intros [[pre sym] post] ? ?.
    apply functionCallback_onRow. }
  destruct (ListingItem_is (doc_itemAt env line) (InstructionItem env)).
  { apply renderInstruction_onRow. }
  unfold renderText, cur. onRow_now.
Qed.

(** Every fragment a call of [render] adds lies on the row grid of that
    call and carries its context token: nothing painted before the call is
    touched, and each new fragment has the [userdata] of the call, the
    metrics the backend answered, and a y that is the height of the font
    unit times the index of a row of the batch. *)
Theorem render_fragments_on_grid env this start count ud :
  0 <= start ->
  exists this' rows l,
    render env this start count ud = Some (this', rows) /\
    painted this' = (painted this ++ l)%list /\
    Forall (fun fragment =>
              userdata fragment = ud /\
              fontwidth fragment = fst (font_metrics env) /\
              fontheight fragment = snd (font_metrics env) /\
              exists k, 0 <= k < rows /\
                        y fragment = k * snd (font_metrics env)) l.
Proof.
  intro Hstart.
  destruct (render_invariant env this start count ud
              (fun i _ th rf =>
                 userdata rf = ud /\
                 fontwidth rf = fst (font_metrics env) /\
                 fontheight rf = snd (font_metrics env) /\
                 exists l,
                   painted th = (painted this ++ l)%list /\
                   Forall (fun fragment =>
                             userdata fragment = ud /\
                             fontwidth fragment = fst (font_metrics env) /\
                             fontheight fragment = snd (font_metrics env) /\
                             exists k, 0 <= k < i /\
                                       y fragment = k * snd (font_metrics env)) l)
              Hstart)
    as (this' & rf' & Heq & _ & _ & _ & l & Hp & Hall).
  - unfold fontUnit; simpl. repeat split.
    exists []. rewrite app_nil_r. split; [reflexivity | constructor].
  - intros i line th rf Hi Hlt (Hu & Hw & Hh & l & Hp & Hall).
    destruct (renderRow_onRow env i line th rf)
      as (l' & Hp' & Hall' & (_ & Hw' & Hh' & Hu')).
    simpl in Hw', Hh', Hu'.
    split; [congruence|]. split; [congruence|]. split; [congruence|].
    exists (l ++ l')%list. split; [now rewrite Hp', Hp, app_assoc|].
    apply Forall_app. split.
    + eapply Forall_impl; [|exact Hall].
      intros f (Hfu & Hfw & Hfh & k & Hk & Hfy).
      repeat split; try assumption. exists k. split; [lia | assumption].
    + eapply Forall_impl; [|exact Hall'].
      intros f (Hfy & Hfw & Hfh & Hfu). simpl in Hfy, Hfw, Hfh, Hfu.
      repeat split; try congruence.
      exists i. split; [lia|]. rewrite Hfy. now rewrite Hh.
  - exists this'. eexists. exists l. split; [exact Heq|].
    split; [exact Hp | exact Hall].
Qed.

Lemma render_fragments_on_grid_witness :
  exists this' rows l,
    render Sample.env newRenderer 1 3 7 = Some (this', rows) /\
    painted this' = (painted newRenderer ++ l)%list /\
    Forall (fun fragment =>
              userdata fragment = 7 /\
              fontwidth fragment = fst (font_metrics Sample.env) /\
              fontheight fragment = snd (font_metrics Sample.env) /\
              exists k, 0 <= k < rows /\
                        y fragment = k * snd (font_metrics Sample.env)) l.
Proof.
  apply (render_fragments_on_grid Sample.env newRenderer 1 3 7). lia.
Defined.

(** ** The texts of a call *)

Lemma functionCallback_texts env pre sym post this rf :
  exists l,
    painted (fst (functionCallback env pre sym post this rf))
    = (painted this ++ l)%list /\
    map text l = functionTexts (pre, sym, post) /\
    Forall (fun fragment => style fragment = "function_fg") l.
Proof.
  unfold functionCallback, functionTexts, measureString, fontUnit, renderText.
  destruct (font_metrics env) as [w h].
  destruct (empty pre), (empty post); simpl; eexists;
    (split; [rewrite <- ?app_assoc; reflexivity|]);
    (split; [reflexivity | repeat constructor]).
Qed.

Lemma renderFunction_texts env item this rf :
  exists indent l,
    painted (fst (renderFunction env item this rf))
    = (painted this ++ indent :: l)%list /\
    indent
    = set_text (set_style rf "") (spaces (Z.to_nat (addressIndentCount env item))) /\
    map text l
    = flat_map functionTexts
        (printer_function env (doc_symbol env (address item))) /\
    Forall (fun fragment => style fragment = "function_fg") l.
Proof.
  unfold renderFunction.
  assert (Ha : painted (fst (renderAddressIndent env item this rf))
               = (painted this
                    ++ [set_text (set_style rf "")
                          (spaces (Z.to_nat (addressIndentCount env item)))])%list).
  { unfold renderAddressIndent, addressIndentCount.
    destruct (doc_segment env (address item)); straight;
      rewrite ?Z.add_0_r; reflexivity. }
  destruct (renderAddressIndent env item this rf) as [this1 rf1]; simpl in Ha.
  assert (Hl : forall parts th cur,
             exists l,
               painted (fst (forEach
                               (fun '(pre, sym, post) =>
                                  functionCallback env pre sym post)
                               parts th cur))
               = (painted th ++ l)%list /\
               map text l = flat_map functionTexts parts /\
               Forall (fun fragment => style fragment = "function_fg") l).
  { induction parts as [|[[pre sym] post] parts IH]; intros th cur.
    - exists []. simpl. rewrite app_nil_r. repeat split. constructor.
    - rewrite forEach_cons.
      destruct (functionCallback_texts env pre sym post th cur)
        as (l1 & Hp1 & Ht1 & Hs1).
      destruct (IH (fst (functionCallback env pre sym post th cur))
                   (snd (functionCallback env pre sym post th cur)))
        as (l2 & Hp2 & Ht2 & Hs2).
      exists (l1 ++ l2)%list. split; [now rewrite Hp2, Hp1, app_assoc|].
      split.
      + rewrite map_app, Ht1, Ht2. reflexivity.
      + apply Forall_app. now split. }
  destruct (Hl (printer_function env (doc_symbol env (address item))) this1 rf1)
    as (l & Hp & Ht & Hs).
  eexists. exists l. split; [|split; [reflexivity|split; assumption]].
  rewrite Hp, Ha, <- app_assoc. reflexivity.
Qed.

Lemma renderAddress_texts env item this rf :
  exists indent,
    painted (fst (renderAddress env item this rf))
    = (painted this ++ [addressFragment env item rf; indent])%list /\
    text indent = spaces (Z.to_nat (1 * INDENT_WIDTH)).
Proof.
  unfold renderAddress, renderIndent, addressFragment; straight;
    eexists; rewrite <- app_assoc; simpl; split; reflexivity.
Qed.

Lemma renderInstruction_texts env item this rf :
  let instruction := doc_instruction env (address item) in
  exists l,
    painted (fst (renderInstruction env item this rf))
    = (painted this ++ l)%list /\
    map text l
    = ([addressText env item;
        spaces (Z.to_nat (1 * INDENT_WIDTH));
        (mnemonic instruction ++ " ")%string]
         ++ operandTexts (printer_out env instruction)
         ++ match comments instruction with
            | [] => []
            | _ :: _ => [commentString instruction]
            end)%list.
Proof.
  intro instruction.
  assert (Hbody : exists l,
             painted (fst (renderInstructionBody env item this rf))
             = (painted this ++ l)%list /\
             map text l
             = ([addressText env item;
                 spaces (Z.to_nat (1 * INDENT_WIDTH));
                 (mnemonic instruction ++ " ")%string]
                  ++ operandTexts (printer_out env instruction))%list).
  { unfold renderInstructionBody. fold instruction.
    destruct (renderAddress_texts env item this rf) as (indent & Ha & Hi).
    destruct (renderAddress env item this rf) as [this1 rf1]; simpl in Ha.
    pose proof (renderMnemonic_painted env instruction this1 rf1) as Hm.
    destruct (renderMnemonic env instruction this1 rf1) as [this2 rf2];
      simpl in Hm.
    destruct (renderOperands_texts env instruction this2 rf2) as (ops & Ho & Ht).
    exists ([addressFragment env item rf; indent;
             mnemonicFragment instruction (style rf1) rf1] ++ ops)%list.
    split.
    - rewrite Ho, Hm, Ha, <- !app_assoc. reflexivity.
    - rewrite map_app, Ht. simpl. rewrite Hi. reflexivity. }
  destruct Hbody as (l & Hp & Ht).
  unfold renderInstruction. fold instruction.
  destruct (renderInstructionBody env item this rf) as [this1 rf1];
    simpl in Hp.
  destruct (comments instruction) as [|c cs] eqn:Hc.
  - exists l. rewrite app_nil_r. split; [|exact Ht].
    now destruct (x rf1 >? m_commentcolumn this1).
  - unfold renderComments, renderText.
    destruct (x rf1 >? m_commentcolumn this1); simpl;
      eexists (l ++ [_])%list;
      (split; [rewrite Hp, <- app_assoc; reflexivity|]);
      rewrite map_app, Ht, <- app_assoc; reflexivity.
Qed.

Lemma renderRow_texts env i line this rf :
  exists l,
    painted (fst (renderRow env i line this rf)) = (painted this ++ l)%list /\
    map text l = rowTexts env (doc_itemAt env line).
Proof.
  unfold renderRow, rowTexts.
  set (cur := set_y (set_x rf 0) (i * fontheight (set_x rf 0))).
  destruct (ListingItem_is (doc_itemAt env line) (SegmentItem env)).
  { unfold renderSegment.
    destruct (renderSegment_forEach
                (printer_segment env (doc_segment env (address (doc_itemAt env line))))
                this cur) as (Hp & _).
    eexists. split; [exact Hp|].
    rewrite map_map. simpl. apply map_id. }
  destruct (ListingItem_is (doc_itemAt env line) (FunctionItem env)).
  { destruct (renderFunction_texts env (doc_itemAt env line) this cur)
      as (indent & l & Hp & -> & Ht & _).
    eexists. split; [exact Hp|]. simpl. now rewrite Ht. }
  destruct (ListingItem_is (doc_itemAt env line) (InstructionItem env)).
  { apply renderInstruction_texts. }
  eexists [_]. split; reflexivity.
Qed.

Lemma itemsFrom_succ env start n :
  itemsFrom env start (S n)
  = (itemsFrom env start n ++ [doc_itemAt env (start + Z.of_nat n)])%list.
Proof.
  unfold itemsFrom. rewrite seq_S, map_app. reflexivity.
Qed.

Lemma render_texts_bound env this start count ud :
  let rows :=
    Z.max 0 (Z.min (doc_size env) (size_t_wrap (start + count)) - start) in
  0 <= start ->
  exists this' l,
    render env this start count ud = Some (this', rows) /\
    painted this' = (painted this ++ l)%list /\
    map text l
    = flat_map (rowTexts env) (itemsFrom env start (Z.to_nat rows)).
Proof.
  intros rows Hstart. subst rows.
  destruct (render_invariant env this start count ud
              (fun i line th _ =>
                 line = start + i /\
                 exists l,
                   painted th = (painted this ++ l)%list /\
                   map text l
                   = flat_map (rowTexts env) (itemsFrom env start (Z.to_nat i)))
              Hstart)
    as (this' & _ & Heq & _ & l & Hp & Ht).
  - split; [lia|]. exists []. simpl. rewrite app_nil_r. now split.
  - intros i line th rf Hi Hlt (Hline & l & Hp & Ht).
    split; [lia|].
    destruct (renderRow_texts env i line th rf) as (l' & Hp' & Ht').
    exists (l ++ l')%list. split; [now rewrite Hp', Hp, app_assoc|].
    replace (Z.to_nat (i + 1)) with (S (Z.to_nat i)) by lia.
    rewrite itemsFrom_succ, flat_map_app, map_app, Ht, Ht'. simpl.
    rewrite app_nil_r.
    replace (start + Z.of_nat (Z.to_nat i)) with line by lia.
    reflexivity.
  - exists this', l. split; [exact Heq|]. now split.
Qed.

(** What a call of [render] writes is decided by the listing alone: the
    texts of the fragments it adds are, row after row, the texts of the
    items of the lines it lays out, whatever the renderer has painted
    before, whatever its comment column and whatever the font metrics. *)
Theorem render_texts env this start count ud :
  0 <= start ->
  exists this' rows l,
    render env this start count ud = Some (this', rows) /\
    painted this' = (painted this ++ l)%list /\
    map text l
    = flat_map (rowTexts env) (itemsFrom env start (Z.to_nat rows)).
Proof.
  intro Hstart.
  destruct (render_texts_bound env this start count ud Hstart)
    as (this' & l & H).
  exists this'. eexists. exists l. exact H.
Qed.

Lemma render_texts_witness :
  exists this' rows l,
    render Sample.env newRenderer 0 5 0 = Some (this', rows) /\
    painted this' = (painted newRenderer ++ l)%list /\
    map text l
    = flat_map (rowTexts Sample.env)
        (itemsFrom Sample.env 0 (Z.to_nat rows)).
Proof.
  apply (render_texts Sample.env newRenderer 0 5 0). lia.
Defined.

Lemma itemsFrom_app env start n m :
  itemsFrom env start (n + m)
  = (itemsFrom env start n ++ itemsFrom env (start + Z.of_nat n) m)%list.
Proof.
  induction m as [|m IH].
  - rewrite Nat.add_0_r. unfold itemsFrom at 3. simpl. now rewrite app_nil_r.
  - rewrite Nat.add_succ_r, !itemsFrom_succ, IH, <- app_assoc.
    replace (start + Z.of_nat (n + m)) with (start + Z.of_nat n + Z.of_nat m)
      by lia.
    reflexivity.
Qed.

(** Two calls for adjacent ranges write what one call for the joined range
    writes: the texts painted by [render(start, a)] followed by
    [render(start + a, b)] are the texts painted by [render(start, a + b)],
    and the rows add up, as long as [start + a + b] fits [size_t]. *)
Theorem render_texts_split env this start a b ud :
  0 <= start -> 0 <= a -> 0 <= b -> start + a + b < SIZE_MOD ->
  exists this1 rows1 this2 rows2 l12 whole rows l,
    render env this start a ud = Some (this1, rows1) /\
    render env this1 (start + a) b ud = Some (this2, rows2) /\
    painted this2 = (painted this ++ l12)%list /\
    render env this start (a + b) ud = Some (whole, rows) /\
    painted whole = (painted this ++ l)%list /\
    rows = rows1 + rows2 /\
    map text l12 = map text l.
Proof.
  intros Hstart Ha Hb Hfit.
  destruct (render_texts_bound env this start a ud Hstart)
    as (this1 & l1 & Heq1 & Hp1 & Ht1).
  destruct (render_texts_bound env this1 (start + a) b ud ltac:(lia))
    as (this2 & l2 & Heq2 & Hp2 & Ht2).
  destruct (render_texts_bound env this start (a + b) ud Hstart)
    as (whole & l & Heq & Hp & Ht).
  rewrite size_t_wrap_small in Heq1, Ht1 by lia.
  rewrite size_t_wrap_small in Heq2, Ht2 by lia.
  rewrite size_t_wrap_small in Heq, Ht by lia.
  set (r1 := Z.max 0 (Z.min (doc_size env) (start + a) - start)) in *.
  set (r2 := Z.max 0 (Z.min (doc_size env) (start + a + b) - (start + a))) in *.
  set (r := Z.max 0 (Z.min (doc_size env) (start + (a + b)) - start)) in *.
  assert (Hr : r = r1 + r2) by (subst r r1 r2; lia).
  exists this1, r1, this2, r2, (l1 ++ l2)%list, whole, r, l.
  split; [exact Heq1|]. split; [exact Heq2|].
  split; [now rewrite Hp2, Hp1, app_assoc|].
  split; [exact Heq|]. split; [exact Hp|]. split; [exact Hr|].
  rewrite map_app, Ht, Ht1, Ht2, Hr.
  rewrite Z2Nat.inj_add by (subst r1 r2; lia).
  rewrite itemsFrom_app, flat_map_app. f_equal.
  destruct (Z.eq_dec r2 0) as [Hz|Hnz].
  - rewrite Hz. reflexivity.
  - replace (start + Z.of_nat (Z.to_nat r1)) with (start + a)
      by (subst r1 r2; lia).
    reflexivity.
Qed.

Lemma render_texts_split_witness :
  exists this1 rows1 this2 rows2 l12 whole rows l,
    render Sample.env newRenderer 1 2 0 = Some (this1, rows1) /\
    render Sample.env this1 (1 + 2) 5 0 = Some (this2, rows2) /\
    painted this2 = (painted newRenderer ++ l12)%list /\
    render Sample.env newRenderer 1 (2 + 5) 0 = Some (whole, rows) /\
    painted whole = (painted newRenderer ++ l)%list /\
    rows = rows1 + rows2 /\
    map text l12 = map text l.
Proof.
  apply (render_texts_split Sample.env newRenderer 1 2 5 0);
    rewrite ?SIZE_MOD_value; lia.
Defined.

(** ** Where a row starts *)

Lemma renderRow_origin env i line this rf :
  let item := doc_itemAt env line in
  exists l,
    painted (fst (renderRow env i line this rf)) = (painted this ++ l)%list /\
    match l with
    | [] =>
        ListingItem_is item (SegmentItem env) = true /\
        printer_segment env (doc_segment env (address item)) = []
    | first :: _ => x first = 0 /\ y first = i * fontheight rf
    end.
Proof.
  cbv zeta. unfold renderRow.
  change (fontheight (set_x rf 0)) with (fontheight rf).
  set (cur := set_y (set_x rf 0) (i * fontheight rf)).
  destruct (ListingItem_is (doc_itemAt env line) (SegmentItem env)).
  { unfold renderSegment.
    destruct (renderSegment_forEach
                (printer_segment env (doc_segment env (address (doc_itemAt env line))))
                this cur) as (Hp & _).
    eexists. split; [exact Hp|].
    destruct (printer_segment env _); simpl; split; reflexivity. }
  destruct (ListingItem_is (doc_itemAt env line) (FunctionItem env)).
  { destruct (renderFunction_texts env (doc_itemAt env line) this cur)
      as (indent & l & Hp & -> & _).
    eexists. split; [exact Hp|]. split; reflexivity. }
  destruct (ListingItem_is (doc_itemAt env line) (InstructionItem env)).
  { destruct (renderInstruction_head env (doc_itemAt env line) this cur)
      as (indent & rest & Hp & _).
    eexists. split; [exact Hp|]. split; reflexivity. }
  eexists [_]. split; [reflexivity|]. split; reflexivity.
Qed.

(** ** Function rows *)

(** A function row starts with one unstyled fragment of blanks, as many as
    the hexadecimal digits of an address, the characters of the name of
    the segment when there is one, and the indent width; after it come, for
    every call of the printer's callback, [pre] when it is not empty, [sym],
    and [post] when it is not empty, all in the style ["function_fg"]. *)
Theorem function_row_fragments env item this rf :
  exists indent l,
    painted (fst (renderFunction env item this rf))
    = (painted this ++ indent :: l)%list /\
    style indent = "" /\
    x indent = x rf /\
    text indent = spaces (Z.to_nat (addressIndentCount env item)) /\
    map text l
    = flat_map functionTexts
        (printer_function env (doc_symbol env (address item))) /\
    Forall (fun fragment => style fragment = "function_fg") l.
Proof.
  destruct (renderFunction_texts env item this rf)
    as (indent & l & Hp & -> & Ht & Hs).
  do 2 eexists. split; [exact Hp|]. repeat split; assumption.
Qed.

(** ** The column of function labels and the column of mnemonics *)

(** When [hex] prints an address in [bits/4] digits, the blanks a
    function row starts with are one character fewer than the address
    prefix and indent an instruction row of the same segment starts with:
    the blanks count the digits, the name of the segment and the indent,
    but not the colon of the prefix.  Outside every segment the blanks
    count no name while the prefix has ["unk:"], and they are four
    characters fewer.  Either cursor moves on from the same x by the
    measured widths of what was painted. *)
Theorem function_label_column env item this that rf :
  0 <= format_bits env ->
  String.length (hex env (address item) (format_bits env) false)
  = Z.to_nat (Z.quot (format_bits env) 4) ->
  exists blanks prefix indent,
    painted (fst (renderAddressIndent env item this rf))
    = (painted this ++ [blanks])%list /\
    painted (fst (renderAddress env item that rf))
    = (painted that ++ [prefix; indent])%list /\
    x blanks = x rf /\
    x prefix = x rf /\
    (String.length (text prefix) + String.length (text indent)
     = String.length (text blanks)
       + match doc_segment env (address item) with
         | Some _ => 1
         | None => 4
         end)%nat /\
    x (snd (renderAddressIndent env item this rf))
    = x rf + Z.of_nat (String.length (text blanks)) * unitWidth env /\
    x (snd (renderAddress env item that rf))
    = x rf + Z.of_nat (String.length (text prefix)) * unitWidth env
      + Z.of_nat (String.length (text indent)) * unitWidth env.
Proof.
  intros Hbits Hhex.
  assert (Hq : 0 <= Z.quot (format_bits env) 4) by (apply Z.quot_pos; lia).
  exists (set_text (set_style rf "")
            (spaces (Z.to_nat (addressIndentCount env item)))),
    (addressFragment env item rf),
    (set_text (set_style (set_x (addressFragment env item rf)
                            (x rf + Z.of_nat (String.length
                                                (text (addressFragment env item rf)))
                                    * unitWidth env)) "")
       (spaces (Z.to_nat (1 * INDENT_WIDTH)))).
  split; [|split; [|split; [reflexivity|split; [reflexivity|split; [|split]]]]].
  - unfold renderAddressIndent, addressIndentCount, measureString, fontUnit,
      renderText.
    destruct (font_metrics env) as [w h].
    destruct (doc_segment env (address item)); simpl;
      rewrite ?Z.add_0_r; reflexivity.
  - unfold renderAddress, renderIndent, addressFragment, unitWidth,
      measureString, fontUnit, renderText.
    destruct (font_metrics env) as [w h]. cbn -[Z.mul Z.add spaces].
    rewrite <- app_assoc. reflexivity.
  - cbn [text set_text set_style set_x]. rewrite !spaces_length.
    unfold addressFragment, addressIndentCount, INDENT_WIDTH.
    cbn [text set_text set_style].
    destruct (doc_segment env (address item)) as [seg|];
      rewrite !length_append, Hhex;
      change (String.length ":") with 1%nat;
      change (String.length "unk") with 3%nat; lia.
  - unfold renderAddressIndent, addressIndentCount, unitWidth, measureString,
      fontUnit, renderText.
    destruct (font_metrics env) as [w h].
    destruct (doc_segment env (address item)); cbn -[Z.mul Z.add spaces];
      rewrite ?Z.add_0_r; reflexivity.
  - unfold renderAddress, renderIndent, addressFragment, unitWidth,
      measureString, fontUnit, renderText.
    destruct (font_metrics env) as [w h]. cbn -[Z.mul Z.add spaces].
    reflexivity.
Qed.

Lemma function_label_column_witness :
  exists blanks prefix indent,
    painted (fst (renderAddressIndent Sample.env (Sample.itemAt 2) newRenderer
                    (freshFormat 8 16 0)))
    = (painted newRenderer ++ [blanks])%list /\
    painted (fst (renderAddress Sample.env (Sample.itemAt 2) newRenderer
                    (freshFormat 8 16 0)))
    = (painted newRenderer ++ [prefix; indent])%list /\
    x blanks = x (freshFormat 8 16 0) /\
    x prefix = x (freshFormat 8 16 0) /\
    (String.length (text prefix) + String.length (text indent)
     = String.length (text blanks) + 1)%nat /\
    x (snd (renderAddressIndent Sample.env (Sample.itemAt 2) newRenderer
              (freshFormat 8 16 0)))
    = x (freshFormat 8 16 0)
      + Z.of_nat (String.length (text blanks)) * unitWidth Sample.env /\
    x (snd (renderAddress Sample.env (Sample.itemAt 2) newRenderer
              (freshFormat 8 16 0)))
    = x (freshFormat 8 16 0)
      + Z.of_nat (String.length (text prefix)) * unitWidth Sample.env
      + Z.of_nat (String.length (text indent)) * unitWidth Sample.env.
Proof.
  apply (function_label_column Sample.env (Sample.itemAt 2) newRenderer
           newRenderer (freshFormat 8 16 0)).
  - simpl. lia.
  - reflexivity.
Defined.

(** ** The comment fragment *)

(** An instruction with comments gets exactly one more fragment after
    its operands, in the style ["comment_fg"], with the joined comments as
    text, at x = (comment column after the bookkeeping + indent width)
    times the font width of the cursor.  With a font width of at least one
    and a comment column that is not negative, the comment starts at least
    the indent width right of where the operands end. *)
Theorem comment_fragment_position env item this rf :
  let instruction := doc_instruction env (address item) in
  let body := renderInstructionBody env item this rf in
  comments instruction <> [] ->
  exists fragment,
    painted (fst (renderInstruction env item this rf))
    = (painted (fst body) ++ [fragment])%list /\
    style fragment = "comment_fg" /\
    text fragment = commentString instruction /\
    y fragment = y (snd body) /\
    x fragment
    = (Z.max (m_commentcolumn this) (x (snd body)) + INDENT_WIDTH)
      * fontwidth rf /\
    (1 <= fontwidth rf -> 0 <= m_commentcolumn this ->
     x (snd body) + INDENT_WIDTH <= x fragment).
Proof.
  intros instruction body Hne. subst body.
  unfold renderInstruction. fold instruction.
  destruct (renderInstructionBody_frame env item this rf)
    as (Hc & _ & Hw & _).
  destruct (renderInstructionBody env item this rf) as [this1 rf1];
    simpl in *.
  destruct (comments instruction) as [|c cs]; [congruence|].
  unfold renderComments, renderText, INDENT_WIDTH.
  destruct (x rf1 >? m_commentcolumn this1) eqn:Hgt;
    rewrite Z.gtb_ltb in Hgt;
    [apply Z.ltb_lt in Hgt | apply Z.ltb_ge in Hgt];
    eexists; simpl; (split; [reflexivity|]);
    repeat split; rewrite ?Hw; cbn [x set_text set_style set_x];
    try (f_equal; lia); intros; nia.
Qed.

Lemma comment_fragment_position_witness :
  let instruction := doc_instruction Sample.env (address (Sample.itemAt 2)) in
  let body :=
    renderInstructionBody Sample.env (Sample.itemAt 2) newRenderer
      (freshFormat 8 16 0) in
  exists fragment,
    painted (fst (renderInstruction Sample.env (Sample.itemAt 2) newRenderer
                    (freshFormat 8 16 0)))
    = (painted (fst body) ++ [fragment])%list /\
    style fragment = "comment_fg" /\
    text fragment = commentString instruction /\
    y fragment = y (snd body) /\
    x fragment
    = (Z.max (m_commentcolumn newRenderer) (x (snd body)) + INDENT_WIDTH)
      * fontwidth (freshFormat 8 16 0) /\
    (1 <= fontwidth (freshFormat 8 16 0) -> 0 <= m_commentcolumn newRenderer ->
     x (snd body) + INDENT_WIDTH <= x fragment).
Proof.
  apply (comment_fragment_position Sample.env (Sample.itemAt 2) newRenderer
           (freshFormat 8 16 0)).
  discriminate.
Defined.

(** ** The style of operands *)

Lemma operandCallback_style env operand opsize opstr this rf :
  let r := operandCallback env operand opsize opstr this rf in
  exists fragment,
    painted (fst r)
    = (painted this
         ++ (if index operand >? 0 then [separatorFragment rf] else [])
         ++ [fragment])%list /\
    text fragment = operandText opsize opstr /\
    style fragment
    = operandStyleName operand
        (if index operand >? 0 then "" else style rf) /\
    style (snd r) = style fragment.
Proof.
  unfold operandCallback, operandText, operandStyleName, operandStyle,
    measureString, fontUnit, renderText.
  destruct (font_metrics env) as [w h].
  destruct (index operand >? 0), (empty opsize), (isNumeric operand),
    (Operand_is operand Memory), (Operand_is operand Displacement),
    (Operand_is operand Register); simpl;
    eexists; (split; [rewrite <- ?app_assoc; reflexivity|]); repeat split.
Qed.

(** ** Calls that lay out nothing *)

Lemma renderLoop_exit env bound fuel i line this rf :
  (line <? bound) = false ->
  renderLoop env bound fuel i line this rf = Some (this, rf, i).
Proof. intro H. destruct fuel; simpl; now rewrite H. Qed.

(** A call with [count = 0], or with [start] at or past the end of the
    document, paints nothing and leaves the comment column alone; all it
    does is its one query of the font metrics. *)
Theorem render_nothing env this start count ud :
  0 <= start < SIZE_MOD ->
  count = 0 \/ doc_size env <= start ->
  render env this start count ud = Some (snd (fontUnit env this), 0) /\
  painted (snd (fontUnit env this)) = painted this /\
  m_commentcolumn (snd (fontUnit env this)) = m_commentcolumn this /\
  fontUnit_calls (snd (fontUnit env this)) = S (fontUnit_calls this).
Proof.
  intros Hstart Hcase. split; [|repeat split].
  unfold render, fontUnit.
  destruct (font_metrics env) as [w h].
  rewrite renderLoop_exit; [reflexivity|].
  apply Z.ltb_ge.
  destruct Hcase as [-> | Hsize]; [|lia].
  rewrite Z.add_0_r, size_t_wrap_small by exact Hstart. lia.
Qed.

Lemma render_nothing_witness :
  render Sample.env newRenderer 2 0 0
  = Some (snd (fontUnit Sample.env newRenderer), 0) /\
  painted (snd (fontUnit Sample.env newRenderer)) = painted newRenderer /\
  m_commentcolumn (snd (fontUnit Sample.env newRenderer))
  = m_commentcolumn newRenderer /\
  fontUnit_calls (snd (fontUnit Sample.env newRenderer))
  = S (fontUnit_calls newRenderer).
Proof.
  apply (render_nothing Sample.env newRenderer 2 0 0).
  - rewrite SIZE_MOD_value. lia.
  - left. reflexivity.
Defined.

(** ** What moves the comment column *)

Lemma renderRow_commentcolumn_exact env i line this rf :
  fontwidth rf = fst (font_metrics env) ->
  m_commentcolumn (fst (renderRow env i line this rf))
  = if instructionRow env (doc_itemAt env line)
    then Z.max (m_commentcolumn this) (instruction_x env (doc_itemAt env line))
    else m_commentcolumn this.
Proof.
  intro Hfw. unfold renderRow, instructionRow.
  set (cur := set_y (set_x rf 0) (i * fontheight (set_x rf 0))).
  destruct (ListingItem_is (doc_itemAt env line) (SegmentItem env)).
  { now destruct (renderSegment_frame env (doc_itemAt env line) this cur). }
  destruct (ListingItem_is (doc_itemAt env line) (FunctionItem env)).
  { now destruct (renderFunction_frame env (doc_itemAt env line) this cur). }
  destruct (ListingItem_is (doc_itemAt env line) (InstructionItem env));
    [|reflexivity].
  simpl. rewrite renderInstruction_commentcolumn. unfold instruction_x.
  destruct (renderInstructionBody_sameColumn env (doc_itemAt env line)
              this cur newRenderer
              (freshFormat (fst (font_metrics env)) (snd (font_metrics env)) 0))
    as [Hx _].
  - split; simpl; [reflexivity | exact Hfw].
  - now rewrite Hx.
Qed.

(** A call of [render] moves the comment column only to an x that an
    instruction row of this very call reached: after the call the column
    is what it was before, or it is the x after mnemonic and operands of
    one of the instruction rows laid out.  Segment rows, function rows,
    rows of unknown kind and comments never move it. *)
Theorem commentcolumn_moves_to_reached_x env this start count ud :
  0 <= start ->
  exists this' rows,
    render env this start count ud = Some (this', rows) /\
    (m_commentcolumn this' = m_commentcolumn this \/
     exists line,
       laidOut env start count line /\
       instructionRow env (doc_itemAt env line) = true /\
       m_commentcolumn this' = instruction_x env (doc_itemAt env line)).
Proof.
  intro Hstart.
  set (bound := Z.min (doc_size env) (size_t_wrap (start + count))).
  destruct (render_invariant env this start count ud
              (fun i line th rf =>
                 line = start + i /\
                 fontwidth rf = fst (font_metrics env) /\
                 (m_commentcolumn th = m_commentcolumn this \/
                  exists l,
                    start <= l < line /\ l < bound /\
                    instructionRow env (doc_itemAt env l) = true /\
                    m_commentcolumn th = instruction_x env (doc_itemAt env l)))
              Hstart)
    as (this' & rf' & Heq & _ & _ & Hcol).
  - unfold fontUnit; simpl. repeat split; try lia; now left.
  - fold bound. intros i line th rf Hi Hlt (Hline & Hfw & Hcol).
    destruct (renderRow_commentcolumn env i line th rf) as (Hfw' & _).
    split; [lia|]. split; [congruence|].
    rewrite (renderRow_commentcolumn_exact env i line th rf Hfw).
    destruct (instructionRow env (doc_itemAt env line)) eqn:Hrow.
    + destruct (Z.max_spec (m_commentcolumn th)
                  (instruction_x env (doc_itemAt env line)))
        as [[_ ->] | [_ ->]].
      * right. exists line. repeat split; try assumption; lia.
      * destruct Hcol as [Hsame | (l & Hl & Hlb & Hrow' & Hx)].
        -- now left.
        -- right. exists l. repeat split; try assumption; lia.
    + destruct Hcol as [Hsame | (l & Hl & Hlb & Hrow' & Hx)].
      * now left.
      * right. exists l. repeat split; try assumption; lia.
  - exists this'. eexists. split; [exact Heq|].
    destruct Hcol as [Hsame | (l & Hl & Hlb & Hrow & Hx)].
    + now left.
    + right. exists l. split; [|now split].
      unfold laidOut. fold bound. lia.
Qed.

Lemma commentcolumn_moves_to_reached_x_witness :
  exists this' rows,
    render Sample.env newRenderer 0 5 0 = Some (this', rows) /\
    (m_commentcolumn this' = m_commentcolumn newRenderer \/
     exists line,
       laidOut Sample.env 0 5 line /\
       instructionRow Sample.env (doc_itemAt Sample.env line) = true /\
       m_commentcolumn this'
       = instruction_x Sample.env (doc_itemAt Sample.env line)).
Proof.
  apply (commentcolumn_moves_to_reached_x Sample.env newRenderer 0 5 0). lia.
Defined.

(** ** Fragments of an instruction row lie side by side *)

Lemma contiguous_app w a l1 b l2 c :
  contiguous w a l1 b -> contiguous w b l2 c ->
  contiguous w a (l1 ++ l2) c.
Proof.
  revert a. induction l1 as [|f l1 IH]; intros a H1 H2; simpl in *.
  - now subst.
  - destruct H1 as [Hx H1]. split; [exact Hx|]. now apply IH.
Qed.

Lemma renderAddress_contiguous env item this rf :
  exists l,
    painted (fst (renderAddress env item this rf)) = (painted this ++ l)%list /\
    contiguous (unitWidth env) (x rf) l (x (snd (renderAddress env item this rf))).
Proof.
  unfold renderAddress, renderIndent, unitWidth, measureString, fontUnit,
    renderText.
  destruct (font_metrics env) as [w h]. cbn -[Z.mul Z.add spaces].
  eexists [_; _]. rewrite <- app_assoc.
  split; [reflexivity|]. cbn -[Z.mul Z.add spaces]. repeat split.
Qed.

Lemma renderMnemonic_contiguous env instruction this rf :
  exists l,
    painted (fst (renderMnemonic env instruction this rf))
    = (painted this ++ l)%list /\
    contiguous (unitWidth env) (x rf) l
      (x (snd (renderMnemonic env instruction this rf))).
Proof.
  exists [mnemonicFragment instruction (style rf) rf].
  split; [apply renderMnemonic_painted|].
  rewrite renderMnemonic_x. simpl. split; reflexivity.
Qed.

Lemma operandCallback_contiguous env operand opsize opstr this rf :
  fontwidth rf = unitWidth env ->
  exists l,
    painted (fst (operandCallback env operand opsize opstr this rf))
    = (painted this ++ l)%list /\
    contiguous (unitWidth env) (x rf) l
      (x (snd (operandCallback env operand opsize opstr this rf))).
Proof.
  intro Hfw.
  destruct (operandCallback_painted env operand opsize opstr this rf)
    as (fragment & Hp & Ht & Hx & _).
  eexists. split; [exact Hp|].
  rewrite operandCallback_x.
  destruct (index operand >? 0); cbn -[Z.mul Z.add];
    rewrite Ht, Hx, ?Hfw; repeat split;
    change (Z.of_nat (String.length ", ")) with 2; lia.
Qed.

Lemma renderOperands_contiguous env instruction this rf :
  fontwidth rf = unitWidth env ->
  exists l,
    painted (fst (renderOperands env instruction this rf))
    = (painted this ++ l)%list /\
    contiguous (unitWidth env) (x rf) l
      (x (snd (renderOperands env instruction this rf))).
Proof.
  unfold renderOperands. revert this rf.
  induction (printer_out env instruction) as [|[[operand opsize] opstr] ops IH];
    intros this rf Hfw.
  - exists []. simpl. now rewrite app_nil_r.
  - rewrite forEach_cons.
    destruct (operandCallback_contiguous env operand opsize opstr this rf Hfw)
      as (l1 & Hp1 & Hc1).
    destruct (operandCallback_frame env operand opsize opstr this rf)
      as (_ & _ & Hw & _).
    destruct (IH (fst (operandCallback env operand opsize opstr this rf))
                 (snd (operandCallback env operand opsize opstr this rf))
                 ltac:(congruence))
      as (l2 & Hp2 & Hc2).
    exists (l1 ++ l2)%list. split; [now rewrite Hp2, Hp1, app_assoc|].
    eapply contiguous_app; eassumption.
Qed.

(** On an instruction row laid out with the font width of the backend,
    the address prefix, the indent, the mnemonic, the separators and the
    operands lie side by side: the first starts at the x of the cursor,
    each next one starts at the x of the one before it plus the measured
    width of its text, and the cursor ends at the x of the last one plus
    the measured width of its text. *)
Theorem instruction_row_contiguous env item this rf :
  fontwidth rf = unitWidth env ->
  let body := renderInstructionBody env item this rf in
  exists l,
    painted (fst body) = (painted this ++ l)%list /\
    map text l
    = ([addressText env item;
        spaces (Z.to_nat (1 * INDENT_WIDTH));
        (mnemonic (doc_instruction env (address item)) ++ " ")%string]
         ++ operandTexts
              (printer_out env (doc_instruction env (address item))))%list /\
    contiguous (unitWidth env) (x rf) l (x (snd body)).
Proof.
  intros Hfw body. subst body. unfold renderInstructionBody.
  destruct (renderAddress_contiguous env item this rf) as (l1 & Hp1 & Hc1).
  destruct (renderAddress_texts env item this rf) as (ind & Hp1' & Hi).
  destruct (renderAddress_frame env item this rf) as (_ & _ & Hw1 & _).
  destruct (renderAddress env item this rf) as [this1 rf1]; simpl in *.
  destruct (renderMnemonic_contiguous env (doc_instruction env (address item))
              this1 rf1) as (l2 & Hp2 & Hc2).
  pose proof (renderMnemonic_painted env (doc_instruction env (address item))
                this1 rf1) as Hp2'.
  destruct (renderMnemonic_frame env (doc_instruction env (address item))
              this1 rf1) as (_ & _ & Hw2 & _).
  destruct (renderMnemonic env (doc_instruction env (address item)) this1 rf1)
    as [this2 rf2]; simpl in *.
  destruct (renderOperands_contiguous env (doc_instruction env (address item))
              this2 rf2 ltac:(congruence)) as (l3 & Hp3 & Hc3).
  destruct (renderOperands_texts env (doc_instruction env (address item))
              this2 rf2) as (l3' & Hp3' & Ht3).
  assert (l1 = [addressFragment env item rf; ind])
    by (apply (app_inv_head (painted this)); congruence).
  assert (l2 = [mnemonicFragment (doc_instruction env (address item))
                  (style rf1) rf1])
    by (apply (app_inv_head (painted this1)); congruence).
  assert (l3' = l3)
    by (apply (app_inv_head (painted this2)); congruence).
  subst l1 l2 l3'.
  eexists. split; [rewrite Hp3, Hp2, Hp1, <- !app_assoc; reflexivity|].
  split.
  - simpl. rewrite Ht3, Hi. reflexivity.
  - eapply contiguous_app; [exact Hc1|].
    eapply contiguous_app; eassumption.
Qed.

Lemma instruction_row_contiguous_witness :
  let body :=
    renderInstructionBody Sample.env (Sample.itemAt 2) newRenderer
      (freshFormat 8 16 0) in
  exists l,
    painted (fst body) = (painted newRenderer ++ l)%list /\
    map text l
    = ([addressText Sample.env (Sample.itemAt 2);
        spaces (Z.to_nat (1 * INDENT_WIDTH));
        (mnemonic (doc_instruction Sample.env (address (Sample.itemAt 2)))
           ++ " ")%string]
         ++ operandTexts
              (printer_out Sample.env
                 (doc_instruction Sample.env (address (Sample.itemAt 2)))))%list /\
    contiguous (unitWidth Sample.env) (x (freshFormat 8 16 0)) l (x (snd body)).
Proof.
  apply (instruction_row_contiguous Sample.env (Sample.itemAt 2) newRenderer
           (freshFormat 8 16 0)).
  reflexivity.
Defined.

(** * The style of the cursor through a call *)

(** ** The cursor keeps the style of the last fragment *)

Lemma lastStyle_app s l1 l2 :
  lastStyle s (l1 ++ l2) = lastStyle (lastStyle s l1) l2.
Proof. unfold lastStyle. apply fold_left_app. Qed.

Lemma lastStyle_last s l f : lastStyle s (l ++ [f]) = style f.
Proof. now rewrite lastStyle_app. Qed.

Lemma keepsStyle_refl this rf : keepsStyle this rf (this, rf).
Proof. exists []. simpl. now rewrite app_nil_r. Qed.

Lemma keepsStyle_trans this rf r1 r2 :
  keepsStyle this rf r1 -> keepsStyle (fst r1) (snd r1) r2 ->
  keepsStyle this rf r2.
Proof.
  intros (l1 & Hp1 & Hs1) (l2 & Hp2 & Hs2).
  exists (l1 ++ l2)%list. split; [now rewrite Hp2, Hp1, app_assoc|].
  now rewrite lastStyle_app, <- Hs1.
Qed.

Lemma keepsStyle_forEach {A} (f : A -> ListingRenderer -> RendererFormat ->
                                  ListingRenderer * RendererFormat) (l : list A) :
  (forall a this rf, keepsStyle this rf (f a this rf)) ->
  forall this rf, keepsStyle this rf (forEach f l this rf).
Proof.
  intro Hf. induction l as [|a l IH]; intros this rf.
  - apply keepsStyle_refl.
  - rewrite forEach_cons.
    eapply keepsStyle_trans; [apply (Hf a this rf) | apply IH].
Qed.

Ltac keeps_now :=
  eexists; simpl; (split; [rewrite <- ?app_assoc; reflexivity | reflexivity]).

Lemma renderAddressIndent_keepsStyle env item this rf :
  keepsStyle this rf (renderAddressIndent env item this rf).
Proof. unfold renderAddressIndent; straight; keeps_now. Qed.

Lemma segmentCallback_keepsStyle line this rf :
  keepsStyle this rf (segmentCallback line this rf).
Proof. unfold segmentCallback, renderText; keeps_now. Qed.

Lemma functionCallback_keepsStyle env pre sym post this rf :
  keepsStyle this rf (functionCallback env pre sym post this rf).
Proof. unfold functionCallback; straight; keeps_now. Qed.

Lemma renderAddress_keepsStyle env item this rf :
  keepsStyle this rf (renderAddress env item this rf).
Proof. unfold renderAddress, renderIndent; straight; keeps_now. Qed.

Lemma renderMnemonic_keepsStyle env instruction this rf :
  keepsStyle this rf (renderMnemonic env instruction this rf).
Proof.
  unfold renderMnemonic. rewrite mnemonicStyle_firstMatch.
  destruct (firstMatch instruction); straight; keeps_now.
Qed.

Lemma operandCallback_keepsStyle env operand opsize opstr this rf :
  keepsStyle this rf (operandCallback env operand opsize opstr this rf).
Proof.
  destruct (operandCallback_style env operand opsize opstr this rf)
    as (fragment & Hp & _ & _ & Hs).
  eexists. split; [exact Hp|].
  rewrite Hs. symmetry. apply lastStyle_last.
Qed.

Lemma renderOperands_keepsStyle env instruction this rf :
  keepsStyle this rf (renderOperands env instruction this rf).
Proof.
  unfold renderOperands. apply keepsStyle_forEach.
  intros [[operand opsize] opstr] ? ?. apply operandCallback_keepsStyle.
Qed.

Lemma renderInstruction_keepsStyle env item this rf :
  keepsStyle this rf (renderInstruction env item this rf).
Proof.
  assert (Hbody : keepsStyle this rf (renderInstructionBody env item this rf)).
  { unfold renderInstructionBody.
    pose proof (renderAddress_keepsStyle env item this rf) as H1.
    destruct (renderAddress env item this rf) as [this1 rf1].
    pose proof (renderMnemonic_keepsStyle env
                  (doc_instruction env (address item)) this1 rf1) as H2.
    destruct (renderMnemonic env (doc_instruction env (address item)) this1 rf1)
      as [this2 rf2].
    eapply keepsStyle_trans; [exact H1|].
    eapply keepsStyle_trans; [exact H2|].
    apply renderOperands_keepsStyle. }
  unfold renderInstruction.
  destruct (renderInstructionBody env item this rf) as [this1 rf1].
  eapply keepsStyle_trans; [exact Hbody|]. simpl.
  destruct (comments (doc_instruction env (address item))).
  - exists []. rewrite app_nil_r.
    destruct (x rf1 >? m_commentcolumn this1); split; reflexivity.
  - unfold renderComments, renderText.
    destruct (x rf1 >? m_commentcolumn this1); keeps_now.
Qed.

Lemma renderRow_keepsStyle env i line this rf :
  keepsStyle this rf (renderRow env i line this rf).
Proof.
  unfold renderRow.
  set (cur := set_y (set_x rf 0) (i * fontheight (set_x rf 0))).
  change (keepsStyle this cur
            (if ListingItem_is (doc_itemAt env line) (SegmentItem env)
             then renderSegment env (doc_itemAt env line) this cur
             else if ListingItem_is (doc_itemAt env line) (FunctionItem env)
             then renderFunction env (doc_itemAt env line) this cur
             else if ListingItem_is (doc_itemAt env line) (InstructionItem env)
             then renderInstruction env (doc_itemAt env line) this cur
             else
               (renderText this
                  (set_text cur
                     ("Unknown Type: " ++ to_string (type (doc_itemAt env line)))),
                set_text cur
                  ("Unknown Type: " ++ to_string (type (doc_itemAt env line)))))).
  destruct (ListingItem_is (doc_itemAt env line) (SegmentItem env)).
  { unfold renderSegment. apply keepsStyle_forEach.
    intros; apply segmentCallback_keepsStyle. }
  destruct (ListingItem_is (doc_itemAt env line) (FunctionItem env)).
  { unfold renderFunction.
    pose proof (renderAddressIndent_keepsStyle env (doc_itemAt env line) this cur)
      as H.
    destruct (renderAddressIndent env (doc_itemAt env line) this cur)
      as [this1 rf1].
    eapply keepsStyle_trans; [exact H|].
    apply keepsStyle_forEach. intros [[pre sym] post] ? ?.
    apply functionCallback_keepsStyle. }
  destruct (ListingItem_is (doc_itemAt env line) (InstructionItem env)).
  { apply renderInstruction_keepsStyle. }
  unfold renderText. keeps_now.
Qed.

(** One row, all that is needed of it: what it paints has the texts of
    its item, lies on its row of the grid, and leaves the cursor, with
    its metrics and token untouched, in the style of the last fragment
    painted. *)
Lemma renderRow_summary env i line this rf :
  exists l,
    painted (fst (renderRow env i line this rf)) = (painted this ++ l)%list /\
    map text l = rowTexts env (doc_itemAt env line) /\
    Forall (fun fragment => y fragment = i * fontheight rf) l /\
    style (snd (renderRow env i line this rf)) = lastStyle (style rf) l /\
    fontwidth (snd (renderRow env i line this rf)) = fontwidth rf /\
    fontheight (snd (renderRow env i line this rf)) = fontheight rf /\
    userdata (snd (renderRow env i line this rf)) = userdata rf.
Proof.
  destruct (renderRow_texts env i line this rf) as (l & Hp & Ht).
  destruct (renderRow_keepsStyle env i line this rf) as (l1 & Hp1 & Hs).
  destruct (renderRow_onRow env i line this rf)
    as (l2 & Hp2 & Hall & (_ & Hw & Hh & Hu)).
  assert (l1 = l) by (apply (app_inv_head (painted this)); congruence).
  assert (l2 = l) by (apply (app_inv_head (painted this)); congruence).
  subst l1 l2. exists l. simpl in Hw, Hh, Hu.
  repeat split; try assumption.
  eapply Forall_impl; [|exact Hall].
  intros f (Hy & _). exact Hy.
Qed.

(** ** A row within a call *)

(** Every line a call lays out is laid out by [renderRow] at its index in
    the batch, from a renderer that has painted exactly the rows before it
    and with a cursor that still has the style of the last fragment of
    those rows (the empty style when there is none), the metrics of the
    backend and the token of the call; the rows after it only add to what
    it painted. *)
Lemma render_row_in_call env this start count ud line :
  0 <= start ->
  laidOut env start count line ->
  exists this' rows before row after th rf,
    render env this start count ud = Some (this', rows) /\
    painted this' = (painted this ++ before ++ row ++ after)%list /\
    map text before
    = flat_map (rowTexts env)
        (itemsFrom env start (Z.to_nat (line - start))) /\
    map text after
    = flat_map (rowTexts env)
        (itemsFrom env (line + 1) (Z.to_nat (start + rows - (line + 1)))) /\
    painted th = (painted this ++ before)%list /\
    style rf = lastStyle "" before /\
    fontwidth rf = fst (font_metrics env) /\
    fontheight rf = snd (font_metrics env) /\
    userdata rf = ud /\
    painted (fst (renderRow env (line - start) line th rf))
    = (painted th ++ row)%list.
Proof.
  intros Hstart [Hlo Hhi].
  set (bound := Z.min (doc_size env) (size_t_wrap (start + count))) in *.
  destruct (render_invariant env this start count ud
              (fun i cur th rf =>
                 cur = start + i /\
                 fontwidth rf = fst (font_metrics env) /\
                 fontheight rf = snd (font_metrics env) /\
                 userdata rf = ud /\
                 exists l,
                   painted th = (painted this ++ l)%list /\
                   style rf = lastStyle "" l /\
                   ((cur <= line /\
                     map text l
                     = flat_map (rowTexts env)
                         (itemsFrom env start (Z.to_nat i))) \/
                    (line < cur /\
                     exists before row after th0 rf0,
                       l = (before ++ row ++ after)%list /\
                       map text before
                       = flat_map (rowTexts env)
                           (itemsFrom env start (Z.to_nat (line - start))) /\
                       map text after
                       = flat_map (rowTexts env)
                           (itemsFrom env (line + 1)
                              (Z.to_nat (cur - (line + 1)))) /\
                       painted th0 = (painted this ++ before)%list /\
                       style rf0 = lastStyle "" before /\
                       fontwidth rf0 = fst (font_metrics env) /\
                       fontheight rf0 = snd (font_metrics env) /\
                       userdata rf0 = ud /\
                       painted (fst (renderRow env (line - start) line th0 rf0))
                       = (painted th0 ++ row)%list)))
              Hstart)
    as (this' & rf' & Heq & _ & _ & _ & _ & l & Hp & _ & Hcase).
  - unfold fontUnit; simpl. repeat split; try lia.
    exists []. rewrite app_nil_r. repeat split. left. split; [lia | reflexivity].
  - fold bound. intros i cur th rf Hi Hlt (Hcur & Hw & Hh & Hu & l & Hp & Hs & Hcase).
    destruct (renderRow_summary env i cur th rf)
      as (l' & Hp' & Ht' & _ & Hs' & Hw' & Hh' & Hu').
    split; [lia|]. split; [congruence|]. split; [congruence|].
    split; [congruence|].
    exists (l ++ l')%list. split; [now rewrite Hp', Hp, app_assoc|].
    split; [now rewrite lastStyle_app, <- Hs|].
    destruct Hcase as [[Hle Ht] | [Hgt Hdone]].
    + destruct (Z.eq_dec cur line) as [Heq | Hne].
      * right. split; [lia|].
        exists l, l', [], th, rf. rewrite app_nil_r.
        replace (line - start) with i by lia.
        replace (Z.to_nat (cur + 1 - (line + 1))) with 0%nat by lia.
        rewrite <- Heq.
        repeat split; assumption.
      * left. split; [lia|].
        replace (Z.to_nat (i + 1)) with (S (Z.to_nat i)) by lia.
        rewrite itemsFrom_succ, flat_map_app, map_app, Ht, Ht'. simpl.
        rewrite app_nil_r.
        replace (start + Z.of_nat (Z.to_nat i)) with cur by lia.
        reflexivity.
    + right. split; [lia|].
      destruct Hdone as (before & row & after & th0 & rf0 & Hl & Hb & Ha & Hrest).
      exists before, row, (after ++ l')%list, th0, rf0.
      split; [now rewrite Hl, <- !app_assoc|].
      split; [exact Hb|]. split; [|exact Hrest].
      replace (Z.to_nat (cur + 1 - (line + 1)))
        with (S (Z.to_nat (cur - (line + 1)))) by lia.
      rewrite itemsFrom_succ, flat_map_app, map_app, Ha, Ht'. simpl.
      rewrite app_nil_r.
      replace (line + 1 + Z.of_nat (Z.to_nat (cur - (line + 1)))) with cur
        by lia.
      reflexivity.
  - fold bound in Heq, Hcase.
    destruct Hcase as [[Hle _] | [_ Hdone]]; [lia|].
    destruct Hdone as (before & row & after & th0 & rf0 & Hl & Hb & Ha & Hrest).
    exists this'. eexists. exists before, row, after, th0, rf0.
    split; [exact Heq|]. split; [now rewrite Hp, Hl|].
    split; [exact Hb|]. split; [|exact Hrest].
    rewrite Ha. do 3 f_equal. lia.
Qed.

(** ** Rows of unknown kind *)

(** C9 (amended). In a call of [render], a line whose item is of none of
    the three kinds gets exactly one fragment, between the fragments of the
    rows before it and those of the rows after it: at x = 0 and
    y = (line - start) * fontheight, with the text ["Unknown Type: "] and
    the kind in decimal; the call returns.  The branch assigns no style:
    the fragment has the style of the last fragment painted before it in
    the call, and the empty style when it is the first one. *)
Theorem unknown_kind_fallback env this start count ud line :
  let item := doc_itemAt env line in
  0 <= start ->
  laidOut env start count line ->
  type item <> SegmentItem env ->
  type item <> FunctionItem env ->
  type item <> InstructionItem env ->
  exists this' rows before fragment after,
    render env this start count ud = Some (this', rows) /\
    painted this' = (painted this ++ before ++ fragment :: after)%list /\
    map text before
    = flat_map (rowTexts env)
        (itemsFrom env start (Z.to_nat (line - start))) /\
    map text after
    = flat_map (rowTexts env)
        (itemsFrom env (line + 1) (Z.to_nat (start + rows - (line + 1)))) /\
    text fragment = "Unknown Type: " ++ to_string (type item) /\
    x fragment = 0 /\
    y fragment = (line - start) * snd (font_metrics env) /\
    style fragment = lastStyle "" before /\
    fontwidth fragment = fst (font_metrics env) /\
    fontheight fragment = snd (font_metrics env) /\
    userdata fragment = ud.
Proof.
  intros item Hstart Hlaid Hs Hf Hi.
  destruct (render_row_in_call env this start count ud line Hstart Hlaid)
    as (this' & rows & before & row & after & th & rf
        & Heq & Hp & Hb & Ha & Hth & Hstyle & Hw & Hh & Hu & Hrow).
  rewrite renderRow_unknown in Hrow by assumption.
  apply app_inv_head in Hrow. subst row.
  exists this', rows, before, (unknownFragment item (line - start) rf), after.
  split; [exact Heq|]. split; [exact Hp|]. split; [exact Hb|].
  split; [exact Ha|]. simpl. rewrite Hh.
  repeat split; assumption.
Qed.

Lemma unknown_kind_fallback_witness :
  exists this' rows before fragment after,
    render Sample.env newRenderer 2 2 0 = Some (this', rows) /\
    painted this' = (painted newRenderer ++ before ++ fragment :: after)%list /\
    map text before
    = flat_map (rowTexts Sample.env)
        (itemsFrom Sample.env 2 (Z.to_nat (3 - 2))) /\
    map text after
    = flat_map (rowTexts Sample.env)
        (itemsFrom Sample.env (3 + 1) (Z.to_nat (2 + rows - (3 + 1)))) /\
    text fragment = "Unknown Type: " ++ to_string 99 /\
    x fragment = 0 /\
    y fragment = (3 - 2) * snd (font_metrics Sample.env) /\
    style fragment = lastStyle "" before /\
    fontwidth fragment = fst (font_metrics Sample.env) /\
    fontheight fragment = snd (font_metrics Sample.env) /\
    userdata fragment = 0.
Proof.
  apply (unknown_kind_fallback Sample.env newRenderer 2 2 0 3).
  - lia.
  - unfold laidOut. split; [lia | vm_compute; reflexivity].
  - simpl. lia.
  - simpl. lia.
  - simpl. lia.
Defined.

(** ** The style of the cursor is never reset *)



(** ** Where the rows of a call start *)

(** In a call of [render], the fragments of the row of every line laid out
    stand between those of the rows before and after it, all at
    y = (line - start) * fontheight, and the first of them at x = 0,
    whatever the cursor held from the row before.  The only rows without
    a fragment are segment rows for which the printer delivers no line. *)
Theorem row_starts_at_origin env this start count ud line :
  let item := doc_itemAt env line in
  0 <= start ->
  laidOut env start count line ->
  exists this' rows before row after,
    render env this start count ud = Some (this', rows) /\
    painted this' = (painted this ++ before ++ row ++ after)%list /\
    map text before
    = flat_map (rowTexts env)
        (itemsFrom env start (Z.to_nat (line - start))) /\
    map text row = rowTexts env item /\
    map text after
    = flat_map (rowTexts env)
        (itemsFrom env (line + 1) (Z.to_nat (start + rows - (line + 1)))) /\
    Forall (fun fragment =>
              y fragment = (line - start) * snd (font_metrics env)) row /\
    match row with
    | [] =>
        ListingItem_is item (SegmentItem env) = true /\
        printer_segment env (doc_segment env (address item)) = []
    | first :: _ => x first = 0
    end.
Proof.
  intros item Hstart Hlaid.
  destruct (render_row_in_call env this start count ud line Hstart Hlaid)
    as (this' & rows & before & row & after & th & rf
        & Heq & Hp & Hb & Ha & Hth & Hstyle & Hw & Hh & Hu & Hr).
  destruct (renderRow_summary env (line - start) line th rf)
    as (l & Hl & Ht & Hy & _).
  destruct (renderRow_origin env (line - start) line th rf) as (l' & Hl' & Hfirst).
  assert (l = row) by (apply (app_inv_head (painted th)); congruence).
  assert (l' = row) by (apply (app_inv_head (painted th)); congruence).
  subst l l'. rewrite Hh in Hy.
  exists this', rows, before, row, after.
  repeat split; try assumption.
  destruct row as [|first rest]; [exact Hfirst | apply Hfirst].
Qed.

Lemma row_starts_at_origin_witness :
  exists this' rows before row after,
    render Sample.env newRenderer 1 3 0 = Some (this', rows) /\
    painted this' = (painted newRenderer ++ before ++ row ++ after)%list /\
    map text before
    = flat_map (rowTexts Sample.env)
        (itemsFrom Sample.env 1 (Z.to_nat (2 - 1))) /\
    map text row = rowTexts Sample.env (doc_itemAt Sample.env 2) /\
    map text after
    = flat_map (rowTexts Sample.env)
        (itemsFrom Sample.env (2 + 1) (Z.to_nat (1 + rows - (2 + 1)))) /\
    Forall (fun fragment =>
              y fragment = (2 - 1) * snd (font_metrics Sample.env)) row /\
    match row with
    | [] =>
        ListingItem_is (doc_itemAt Sample.env 2) (SegmentItem Sample.env) = true /\
        printer_segment Sample.env
          (doc_segment Sample.env (address (doc_itemAt Sample.env 2))) = []
    | first :: _ => x first = 0
    end.
Proof.
  apply (row_starts_at_origin Sample.env newRenderer 1 3 0 2).
  - lia.
  - unfold laidOut. split; [lia | vm_compute; reflexivity].
Defined.

(** ** The style of an operand on its row *)

Lemma operands_texts env ops :
  forall this rf,
    exists l,
      painted (fst (forEach
                      (fun '(operand, opsize, opstr) =>
                         operandCallback env operand opsize opstr)
                      ops this rf))
      = (painted this ++ l)%list /\
      map text l = operandTexts ops.
Proof.
  induction ops as [|[[operand opsize] opstr] ops IH]; intros this rf.
  - exists []. simpl. now rewrite app_nil_r.
  - rewrite forEach_cons.
    destruct (operandCallback_painted env operand opsize opstr this rf)
      as (fragment & Hp & Ht & _).
    destruct (IH (fst (operandCallback env operand opsize opstr this rf))
                 (snd (operandCallback env operand opsize opstr this rf)))
      as (l & Hl & Hm).
    rewrite Hl, Hp.
    exists (((if index operand >? 0 then [separatorFragment rf] else [])
             ++ [fragment]) ++ l)%list.
    split; [now rewrite <- !app_assoc|].
    rewrite map_app, Hm. unfold operandTexts at 2. cbn [flat_map].
    fold (operandTexts ops). f_equal.
    destruct (index operand >? 0); simpl; now rewrite Ht.
Qed.

(** On an instruction row, the fragment of every operand the printer
    delivers comes after the address prefix, the indent, the mnemonic, the
    fragments of the operands before it and its own separator if it has
    one.  Its style is decided by the kind of the operand: memory before
    immediate for numeric operands, then displacement, then register.  An
    operand of none of these kinds is painted in the style of the fragment
    painted just before it: the empty style of its separator when its
    index is positive, otherwise the style of the mnemonic or of the
    operand before it. *)
Theorem operand_fragment_style env item this rf before operand opsize opstr after :
  let instruction := doc_instruction env (address item) in
  printer_out env instruction
  = (before ++ (operand, opsize, opstr) :: after)%list ->
  exists preceding previous fragment rest,
    painted (fst (renderInstruction env item this rf))
    = (painted this ++ (preceding ++ [previous]) ++ fragment :: rest)%list /\
    map text (preceding ++ [previous])
    = ([addressText env item;
        spaces (Z.to_nat (1 * INDENT_WIDTH));
        (mnemonic instruction ++ " ")%string]
         ++ operandTexts before
         ++ (if index operand >? 0 then [", "] else []))%list /\
    text fragment = operandText opsize opstr /\
    style fragment = operandStyleName operand (style previous) /\
    if index operand >? 0 then style previous = "" else True.
Proof.
  intros instruction Hparts.
  set (cb := fun '(operand, opsize, opstr) =>
               operandCallback env operand opsize opstr).
  set (s1 := renderAddress env item this rf).
  set (s2 := renderMnemonic env instruction (fst s1) (snd s1)).
  set (s3 := forEach cb before (fst s2) (snd s2)).
  set (s4 := operandCallback env operand opsize opstr (fst s3) (snd s3)).
  assert (Hbody : renderInstructionBody env item this rf
                  = forEach cb after (fst s4) (snd s4)).
  { unfold renderInstructionBody. fold instruction s1.
    rewrite (surjective_pairing s1). fold s2.
    rewrite (surjective_pairing s2). unfold renderOperands.
    fold cb. rewrite Hparts, forEach_app, forEach_cons. reflexivity. }
  (* what stands before the operand *)
  assert (Hkeep : keepsStyle this rf s3).
  { eapply keepsStyle_trans; [apply renderAddress_keepsStyle|].
    eapply keepsStyle_trans; [apply renderMnemonic_keepsStyle|].
    apply keepsStyle_forEach. intros [[? ?] ?] ? ?.
    apply operandCallback_keepsStyle. }
  destruct Hkeep as (L & HL & HsL).
  destruct (renderAddress_texts env item this rf) as (ind & H1 & Hind).
  pose proof (renderMnemonic_painted env instruction (fst s1) (snd s1)) as H2.
  destruct (operands_texts env before (fst s2) (snd s2)) as (lb & H3 & Htb).
  fold s1 in H1. fold s2 in H2. fold cb s3 in H3.
  assert (HLeq : L = ([addressFragment env item rf; ind;
                       mnemonicFragment instruction (style (snd s1)) (snd s1)]
                        ++ lb)%list).
  { apply (app_inv_head (painted this)). rewrite <- HL, H3, H2, H1.
    now rewrite <- !app_assoc. }
  (* the operand itself *)
  destruct (operandCallback_style env operand opsize opstr (fst s3) (snd s3))
    as (fragment & Hp4 & Ht4 & Hs4 & _).
  fold s4 in Hp4.
  (* what comes after it *)
  destruct (frame_forEach cb after
              ltac:(intros [[? ?] ?] ? ?; apply operandCallback_frame)
              (fst s4) (snd s4)) as (_ & [la Hla] & _).
  destruct (renderInstruction_painted_body env item this rf) as [tail Htail].
  rewrite Hbody in Htail.
  set (seps := if index operand >? 0 then [separatorFragment (snd s3)] else [])
    in *.
  assert (Hne : (L ++ seps)%list <> []).
  { rewrite HLeq. discriminate. }
  destruct (exists_last Hne) as (preceding & previous & Hlast).
  exists preceding, previous, fragment, (la ++ tail)%list.
  rewrite <- Hlast.
  assert (Hprev : style previous = lastStyle (style rf) (L ++ seps)).
  { rewrite Hlast. symmetry. apply lastStyle_last. }
  assert (Hprev' : style previous
                   = if index operand >? 0 then "" else style (snd s3)).
  { rewrite Hprev, lastStyle_app, <- HsL. subst seps.
    destruct (index operand >? 0); reflexivity. }
  split; [|split; [|split; [exact Ht4|split]]].
  - rewrite Htail, Hla, Hp4, HL, <- !app_assoc. reflexivity.
  - rewrite map_app, HLeq, map_app, Htb. subst seps. simpl.
    rewrite Hind.
    destruct (index operand >? 0); reflexivity.
  - rewrite Hs4, Hprev'. destruct (index operand >? 0); reflexivity.
  - rewrite Hprev'. destruct (index operand >? 0); [reflexivity | exact I].
Qed.

Lemma operand_fragment_style_witness :
  exists preceding previous fragment rest,
    painted (fst (renderInstruction Sample.callEnv (Sample.itemAt 2)
                    newRenderer (freshFormat 8 16 0)))
    = (painted newRenderer
         ++ (preceding ++ [previous]) ++ fragment :: rest)%list /\
    map text (preceding ++ [previous])
    = ([addressText Sample.callEnv (Sample.itemAt 2);
        spaces (Z.to_nat (1 * INDENT_WIDTH));
        (mnemonic Sample.call ++ " ")%string]
         ++ operandTexts [] ++ [])%list /\
    text fragment = operandText "" "sub_401000" /\
    style fragment = operandStyleName (Sample.plainOperand 0) (style previous) /\
    True.
Proof.
  apply (operand_fragment_style Sample.callEnv (Sample.itemAt 2) newRenderer
           (freshFormat 8 16 0) [] (Sample.plainOperand 0) "" "sub_401000" []).
  reflexivity.
Defined.
